(** * Binding synthesis of the template compiler (src/compile/nodes/Binding.ts)

    A shallow embedding of the [Binding] node: its constructor, [munge],
    [getDomUpdater], [getBindingGroup], [getEventHandler] and
    [getValueFromDom], followed by the properties the specification states
    about them.  The compiler and the block are mutated by the source; here
    they are passed in and returned. *)

From Stdlib Require Import ZArith Lia Bool Ascii String.
From stdpp Require Import base list strings gmap pretty.

Local Open Scope Z_scope.

(** ** JavaScript strings, values and collections *)

(** [s[0] === '$'] : an empty string has no first character. *)
Definition first_is_sigil (s : string) : bool :=
  match s with
  | String c _ => Ascii.eqb c "$"%char
  | EmptyString => false
  end.

(** [s.slice(1)] *)
Definition slice1 (s : string) : string :=
  match s with
  | String _ rest => rest
  | EmptyString => EmptyString
  end.

(** [hay.includes(needle)], the search a regular expression without anchors
    performs for one literal alternative. *)
Fixpoint includes (needle hay : string) : bool :=
  String.prefix needle hay ||
  match hay with
  | String _ rest => includes needle rest
  | EmptyString => false
  end.

(** [/a|b|.../.test(s)] for literal alternatives. *)
Definition regexp_test (alternatives : list string) (s : string) : bool :=
  existsb (fun a => includes a s) alternatives.

(** What [Element.getStaticAttributeValue] hands back: [null] when the
    attribute is absent or dynamic, [true] for a bare attribute, or its
    text. *)
Inductive StaticValue : Type :=
| SNull
| STrue
| SText (data : string).

(** String coercion applied by [RegExp.prototype.test] to its argument. *)
Definition to_js_string (v : StaticValue) : string :=
  match v with
  | SNull => "null"
  | STrue => "true"
  | SText data => data
  end.

(** [v === true] *)
Definition is_true_value (v : StaticValue) : bool :=
  match v with STrue => true | _ => false end.

(** [v === 'text'] *)
Definition is_text (v : StaticValue) (text : string) : bool :=
  match v with SText data => String.eqb data text | _ => false end.

(** A JavaScript [Set] of strings, in insertion order. *)
Definition Set_has (s : list string) (x : string) : bool :=
  existsb (String.eqb x) s.

Definition Set_add (s : list string) (x : string) : list string :=
  if Set_has s x then s else s ++ [x].

(** [new Set(iterable)] *)
Definition Set_new (l : list string) : list string :=
  fold_left Set_add l [].

(** [array.indexOf(x)], scanning from position [i]; [-1] when absent. *)
Fixpoint indexOf_from (i : Z) (l : list string) (x : string) : Z :=
  match l with
  | [] => -1
  | y :: rest => if String.eqb y x then i else indexOf_from (i + 1) rest x
  end.

Definition indexOf (l : list string) (x : string) : Z := indexOf_from 0 l x.

(** ** The collaborators of a binding *)

(** ESTree nodes a binding target is made of. *)
Inductive AstNode : Type :=
| Identifier (name : string) (start end_ : nat)
| MemberExpression (object property : AstNode) (computed : bool)
    (start end_ : nat)
| ThisExpression (start end_ : nat).

(** [node.type === 'MemberExpression'] *)
Definition is_MemberExpression (n : AstNode) : bool :=
  match n with MemberExpression _ _ _ _ _ => true | _ => false end.

Definition node_start (n : AstNode) : nat :=
  match n with
  | Identifier _ s _ | MemberExpression _ _ _ s _ | ThisExpression s _ => s
  end.

Definition node_end (n : AstNode) : nat :=
  match n with
  | Identifier _ _ e | MemberExpression _ _ _ _ e | ThisExpression _ e => e
  end.

(** [isComputed], the last function of the file. *)
Fixpoint isComputed (n : AstNode) : bool :=
  match n with
  | MemberExpression object _ computed _ _ =>
      if computed then true else isComputed object
  | _ => false
  end.

(** A resolved expression: only the fields a binding reads. *)
Module Expression.
Record t : Type := {
  node : AstNode;
  snippet : string;
  dependencies : list string
}.
End Expression.

(** The host element.  [Element] is not among the sources; its two methods
    are fields here. *)
Module Element.
Record t : Type := {
  name : string;
  var : string;
  getStaticAttributeValue : string -> StaticValue;
  isMediaNode : bool
}.
End Element.

Record Scope : Type := { names : list string }.

Record Computation : Type := { key : string }.

Record Compiler : Type := {
  bindingGroups : list string;
  indirectDependencies : gmap string (list string);
  computations : list Computation
}.

(** The block under construction: the two builders a binding appends to,
    the context heads of the enclosing each-blocks, and the variables. *)
Record Block : Type := {
  hydrate : list string;
  destroy : list string;
  bindings : gmap string string;
  variables : list (string * string);
  usedNames : list string
}.

(** Modelled from the spec: [CodeBuilder.addLine] is not among the sources;
    a builder is an ordered append point of its statement list. *)
Definition addLine (builder : list string) (line : string) : list string :=
  builder ++ [line].

Definition hydrate_addLine (b : Block) (line : string) : Block :=
  {| hydrate := addLine (hydrate b) line; destroy := destroy b;
     bindings := bindings b; variables := variables b;
     usedNames := usedNames b |}.

Definition destroy_addLine (b : Block) (line : string) : Block :=
  {| hydrate := hydrate b; destroy := addLine (destroy b) line;
     bindings := bindings b; variables := variables b;
     usedNames := usedNames b |}.

(** Functions and constants imported by the file and defined elsewhere in
    the repository: the [dimensions] pattern of utils/patterns, the [name]
    of [getObject(node)], the [parts] of [flattenReference(node)],
    [getTailSnippet], and the block's [getUniqueName] and [addVariable]. *)
Class Collaborators : Type := {
  dimensions_test : string -> bool;
  getObject_name : AstNode -> string;
  flattenReference_parts : AstNode -> list string;
  getTailSnippet : AstNode -> string;
  getUniqueName : Block -> string -> string * Block;
  addVariable : Block -> string -> string -> Block
}.

(** ** The binding node *)

Definition readOnlyMediaAttributes : list string :=
  ["duration"; "buffered"; "seekable"; "played"].

Module Binding.
Record t : Type := {
  parent : Element.t;
  name : string;
  value : Expression.t;
  isContextual : bool;
  usesContext : bool;
  obj : string;
  prop : string
}.
End Binding.

(** What [getEventHandler] returns. *)
Module Handler.
Record t : Type := {
  usesContext : bool;
  usesState : bool;
  usesStore : bool;
  mutation : option string;
  props : list string;
  storeProps : list string
}.
End Handler.

(** What [munge] returns. *)
Module Munged.
Record t : Type := {
  name : string;
  object : string;
  handler : Handler.t;
  updateDom : option string;
  initialUpdate : option string;
  needsLock : bool;
  updateCondition : option string;
  isReadOnlyMediaAttribute : bool
}.
End Munged.

(** The bytes of U+2702, the marker around a source span. *)
Definition scissors : string :=
  String (ascii_of_nat 226) (String (ascii_of_nat 156)
    (String (ascii_of_nat 130) EmptyString)).

(** A double-quoted JavaScript string literal. *)
Definition quoted (s : string) : string :=
  String (ascii_of_nat 34) s +:+ String (ascii_of_nat 34) EmptyString.

Definition span (a b : nat) : string :=
  "[" +:+ scissors +:+ pretty a +:+ "-" +:+ pretty b +:+ scissors +:+ "]".

Section Synthesis.
Context `{Collaborators}.

(** [constructor(compiler, parent, scope, info)] *)
Definition Binding_new (parent : Element.t) (scope : Scope)
    (info_name : string) (info_value : Expression.t) : Binding.t :=
  let name := getObject_name (Expression.node info_value) in
  let isContextual := Set_has (names scope) name in
  match Expression.node info_value with
  | MemberExpression object property computed _ _ =>
      let prop := span (node_start property) (node_end property) in
      let prop := if negb computed then "'" +:+ prop +:+ "'" else prop in
      let obj := span (node_start object) (node_end object) in
      {| Binding.parent := parent; Binding.name := info_name;
         Binding.value := info_value;
         Binding.isContextual := isContextual;
         Binding.usesContext := true;
         Binding.obj := obj; Binding.prop := prop |}
  | _ =>
      {| Binding.parent := parent; Binding.name := info_name;
         Binding.value := info_value;
         Binding.isContextual := isContextual;
         Binding.usesContext := Set_has (names scope) name;
         Binding.obj := "ctx"; Binding.prop := "'" +:+ name +:+ "'" |}
  end.

Definition isReadOnlyMediaAttribute (this : Binding.t) : bool :=
  Set_has readOnlyMediaAttributes (Binding.name this).

(** View writer: [getDomUpdater(node, binding, snippet)]. *)
Definition getDomUpdater (node : Element.t) (binding : Binding.t)
    (snippet : string) : option string :=
  if isReadOnlyMediaAttribute binding then None
  else if String.eqb (Element.name node) "select" then
    Some (if is_true_value (Element.getStaticAttributeValue node "multiple")
          then "@selectOptions(" +:+ Element.var node +:+ ", " +:+ snippet +:+ ")"
          else "@selectOption(" +:+ Element.var node +:+ ", " +:+ snippet +:+ ")")
  else if String.eqb (Binding.name binding) "group" then
    let type := Element.getStaticAttributeValue node "type" in
    let condition :=
      if is_text type "checkbox"
      then "~" +:+ snippet +:+ ".indexOf(" +:+ Element.var node +:+ ".__value)"
      else Element.var node +:+ ".__value === " +:+ snippet in
    Some (Element.var node +:+ ".checked = " +:+ condition +:+ ";")
  else
    Some (Element.var node +:+ "." +:+ Binding.name binding +:+ " = " +:+ snippet +:+ ";").

(** The registry step of [getBindingGroup]: look the keypath up, and
    allocate the next index when it is new. *)
Definition groupIndex (groups : list string) (keypath : string)
    : Z * list string :=
  let index := indexOf groups keypath in
  if index =? -1
  then (Z.of_nat (length groups), groups ++ [keypath])
  else (index, groups).

Definition set_bindingGroups (compiler : Compiler) (groups : list string)
    : Compiler :=
  {| bindingGroups := groups;
     indirectDependencies := indirectDependencies compiler;
     computations := computations compiler |}.

(** [getBindingGroup(compiler, value)] *)
Definition getBindingGroup (compiler : Compiler) (value : AstNode)
    : Z * Compiler :=
  let parts := flattenReference_parts value in
  let keypath := String.concat "." parts in
  let '(index, groups) := groupIndex (bindingGroups compiler) keypath in
  (index, set_bindingGroups compiler groups).

(** [prop => `${prop}: ctx.${prop}`] *)
Definition ctx_prop (prop : string) : string := prop +:+ ": ctx." +:+ prop.

(** [prop => `${prop}: $.${prop}`] *)
Definition store_prop (prop : string) : string := prop +:+ ": $." +:+ prop.

(** [compiler.computations.some(computation => computation.key === prop)] *)
Definition is_computation (compiler : Compiler) (prop : string) : bool :=
  existsb (fun computation => String.eqb (key computation) prop)
    (computations compiler).

(** [getEventHandler(binding, compiler, block, name, snippet,
    dependencies, value)] *)
Definition getEventHandler (binding : Binding.t) (compiler : Compiler)
    (block : Block) (name snippet : string) (dependencies : list string)
    (value : string) : Handler.t :=
  let storeDependencies :=
    map slice1 (List.filter first_is_sigil dependencies) in
  let dependencies :=
    List.filter (fun prop => negb (first_is_sigil prop)) dependencies in
  if Binding.isContextual binding then
    let tail :=
      if is_MemberExpression (Expression.node (Binding.value binding))
      then getTailSnippet (Expression.node (Binding.value binding))
      else "" in
    let head := default "undefined" (bindings block !! name) in
    {| Handler.usesContext := true;
       Handler.usesState := true;
       Handler.usesStore := (0 <? length storeDependencies)%nat;
       Handler.mutation := Some (head +:+ tail +:+ " = " +:+ value +:+ ";");
       Handler.props := map ctx_prop dependencies;
       Handler.storeProps := map store_prop storeDependencies |}
  else if is_MemberExpression (Expression.node (Binding.value binding)) then
    let dependencies :=
      List.filter (fun prop => negb (is_computation compiler prop))
        dependencies in
    {| Handler.usesContext := false;
       Handler.usesState := true;
       Handler.usesStore := (0 <? length storeDependencies)%nat;
       Handler.mutation := Some (snippet +:+ " = " +:+ value);
       Handler.props := map ctx_prop dependencies;
       Handler.storeProps := map store_prop storeDependencies |}
  else
    let '(props, storeProps) :=
      if first_is_sigil name
      then ([], [slice1 name +:+ ": " +:+ value])
      else ([name +:+ ": " +:+ value], []) in
    {| Handler.usesContext := false;
       Handler.usesState := false;
       Handler.usesStore := false;
       Handler.mutation := None;
       Handler.props := props;
       Handler.storeProps := storeProps |}.

(** View reader: [getValueFromDom(compiler, node, binding)]. *)
Definition getValueFromDom (compiler : Compiler) (node : Element.t)
    (binding : Binding.t) : string * Compiler :=
  if String.eqb (Element.name node) "select" then
    (if is_true_value (Element.getStaticAttributeValue node "multiple")
     then "@selectMultipleValue(" +:+ Element.var node +:+ ")"
     else "@selectValue(" +:+ Element.var node +:+ ")", compiler)
  else
    let type := Element.getStaticAttributeValue node "type" in
    if String.eqb (Binding.name binding) "group" then
      let '(bindingGroup, compiler) :=
        getBindingGroup compiler (Expression.node (Binding.value binding)) in
      if is_text type "checkbox" then
        ("@getBindingGroupValue(#component._bindingGroups["
           +:+ pretty bindingGroup +:+ "])", compiler)
      else (Element.var node +:+ ".__value", compiler)
    else if is_text type "range" || is_text type "number" then
      ("@toNumber(" +:+ Element.var node +:+ "." +:+ Binding.name binding +:+ ")",
       compiler)
    else if String.eqb (Binding.name binding) "buffered"
            || String.eqb (Binding.name binding) "seekable"
            || String.eqb (Binding.name binding) "played" then
      ("@timeRangesToArray(" +:+ Element.var node +:+ "." +:+ Binding.name binding
         +:+ ")", compiler)
    else (Element.var node +:+ "." +:+ Binding.name binding, compiler).

(** [node.name !== 'input' ||
    !/radio|checkbox|range|color/.test(node.getStaticAttributeValue('type'))] *)
Definition input_needsLock (node : Element.t) : bool :=
  negb (String.eqb (Element.name node) "input")
  || negb (regexp_test ["radio"; "checkbox"; "range"; "color"]
             (to_js_string (Element.getStaticAttributeValue node "type"))).

(** [(node.isMediaNode() && readOnlyMediaAttributes.has(this.name)) ||
    dimensions.test(this.name)] *)
Definition isReadOnly (node : Element.t) (this : Binding.t) : bool :=
  (Element.isMediaNode node
   && Set_has readOnlyMediaAttributes (Binding.name this))
  || dimensions_test (Binding.name this).

(** The dependencies of the target together with the indirect
    dependencies registered for each of them. *)
Definition expandDependencies (compiler : Compiler) (base : list string)
    : list string :=
  fold_left
    (fun dependencies prop =>
       match indirectDependencies compiler !! prop with
       | Some indirect => fold_left Set_add indirect dependencies
       | None => dependencies
       end)
    base (Set_new base).

(** [munge(block)], with the compiler and the block it mutates. *)
Definition munge (compiler : Compiler) (block : Block) (this : Binding.t)
    : Munged.t * Compiler * Block :=
  let node := Binding.parent this in
  let needsLock := input_needsLock node in
  let isReadOnly := isReadOnly node this in
  let name := getObject_name (Expression.node (Binding.value this)) in
  let snippet := Expression.snippet (Binding.value this) in
  let dependencies :=
    expandDependencies compiler
      (Expression.dependencies (Binding.value this)) in
  (* view to model *)
  let '(valueFromDom, compiler) := getValueFromDom compiler node this in
  let handler :=
    getEventHandler this compiler block name snippet dependencies
      valueFromDom in
  (* model to view *)
  let updateDom := getDomUpdater node this snippet in
  let initialUpdate := updateDom in
  let updateCondition : option string := None in
  (* special cases *)
  let '(compiler, block) :=
    if String.eqb (Binding.name this) "group" then
      let '(bindingGroup, compiler) :=
        getBindingGroup compiler (Expression.node (Binding.value this)) in
      let block :=
        hydrate_addLine block
          ("#component._bindingGroups[" +:+ pretty bindingGroup
             +:+ "].push(" +:+ Element.var node +:+ ");") in
      let block :=
        destroy_addLine block
          ("#component._bindingGroups[" +:+ pretty bindingGroup
             +:+ "].splice(#component._bindingGroups["
             +:+ pretty bindingGroup +:+ "].indexOf("
             +:+ Element.var node +:+ "), 1);") in
      (compiler, block)
    else (compiler, block) in
  let '(updateCondition, initialUpdate) :=
    if String.eqb (Binding.name this) "currentTime"
       || String.eqb (Binding.name this) "volume" then
      (Some ("!isNaN(" +:+ snippet +:+ ")"),
       if String.eqb (Binding.name this) "currentTime" then None
       else initialUpdate)
    else (updateCondition, initialUpdate) in
  let '(block, updateCondition, updateDom, initialUpdate) :=
    if String.eqb (Binding.name this) "paused" then
      let '(last, block) :=
        getUniqueName block (Element.var node +:+ "_is_paused") in
      let block := addVariable block last "true" in
      (block,
       Some (last +:+ " !== (" +:+ last +:+ " = " +:+ snippet +:+ ")"),
       Some (Element.var node +:+ "[" +:+ last
               +:+ " ? " +:+ quoted "pause" +:+ " : " +:+ quoted "play"
               +:+ "]();"),
       None)
    else (block, updateCondition, updateDom, initialUpdate) in
  (* bind:offsetWidth and bind:offsetHeight *)
  let '(initialUpdate, updateDom) :=
    if dimensions_test (Binding.name this) then (None, None)
    else (initialUpdate, updateDom) in
  ({| Munged.name := Binding.name this;
      Munged.object := name;
      Munged.handler := handler;
      Munged.updateDom := updateDom;
      Munged.initialUpdate := initialUpdate;
      Munged.needsLock := negb isReadOnly && needsLock;
      Munged.updateCondition := updateCondition;
      Munged.isReadOnlyMediaAttribute := isReadOnlyMediaAttribute this |},
   compiler, block).

(** The keypath [getBindingGroup] files a target under. *)
Definition keypath_of (value : AstNode) : string :=
  String.concat "." (flattenReference_parts value).

(** [getBindingGroup] called on each target in turn. *)
Fixpoint getBindingGroup_all (compiler : Compiler) (values : list AstNode)
    : list Z * Compiler :=
  match values with
  | [] => ([], compiler)
  | value :: rest =>
      let '(index, compiler) := getBindingGroup compiler value in
      let '(indices, compiler) := getBindingGroup_all compiler rest in
      (index :: indices, compiler)
  end.

(** The private cell a [paused] binding declares. *)
Definition paused_cell (block : Block) (this : Binding.t) : string :=
  (getUniqueName block
     (Element.var (Binding.parent this) +:+ "_is_paused")).1.

End Synthesis.

(** [getBindingGroup] called for each keypath in turn: the indices it
    returns and the registry it leaves. *)
Fixpoint registry_run (groups : list string) (keypaths : list string)
    : list Z * list string :=
  match keypaths with
  | [] => ([], groups)
  | keypath :: rest =>
      let '(index, groups) := groupIndex groups keypath in
      let '(indices, final) := registry_run groups rest in
      (index :: indices, final)
  end.

(** The names reached from [base] through the indirect-dependency map. *)
Definition indirect_of (compiler : Compiler) (base : list string)
    (d : string) : Prop :=
  exists p indirect,
    p ∈ base
    /\ indirectDependencies compiler !! p = Some indirect
    /\ d ∈ indirect.

(** The statements a grouped binding adds to the block. *)
Definition registration (bindingGroup : Z) (var : string) : string :=
  "#component._bindingGroups[" +:+ pretty bindingGroup +:+ "].push("
    +:+ var +:+ ");".

Definition deregistration (bindingGroup : Z) (var : string) : string :=
  "#component._bindingGroups[" +:+ pretty bindingGroup
    +:+ "].splice(#component._bindingGroups[" +:+ pretty bindingGroup
    +:+ "].indexOf(" +:+ var +:+ "), 1);".

(** [<input type=checkbox>] *)
Definition is_checkbox (node : Element.t) : Prop :=
  Element.name node = "input"
  /\ Element.getStaticAttributeValue node "type" = SText "checkbox".

(** ** A concrete set of collaborators

    Used to run the synthesis on examples. *)

(** Modelled from the spec: the [dimensions] pattern of utils/patterns is not
    among the sources; the spec and the comment in [munge] name the
    measured-size attributes offsetWidth and offsetHeight. *)
Definition sample_dimensions (s : string) : bool :=
  Set_has ["offsetWidth"; "offsetHeight"] s.

(** Modelled from the spec: utils/getObject is not among the sources; the
    spec calls its result the outermost identifier of the target. *)
Fixpoint sample_object_name (n : AstNode) : string :=
  match n with
  | Identifier name _ _ => name
  | MemberExpression object _ _ _ _ => sample_object_name object
  | ThisExpression _ _ => "this"
  end.

(** Modelled from the spec: utils/flattenReference is not among the sources;
    the keypath is the dot-joined path of the target reference. *)
Fixpoint sample_parts (n : AstNode) : list string :=
  match n with
  | Identifier name _ _ => [name]
  | MemberExpression object property _ _ _ =>
      sample_parts object ++ sample_parts property
  | ThisExpression _ _ => ["this"]
  end.

Definition sample_tail (n : AstNode) : string :=
  match n with
  | MemberExpression object _ _ _ e => span (node_end object) e
  | _ => ""
  end.

Definition sample_unique (block : Block) (name : string) : string * Block :=
  let alias :=
    if Set_has (usedNames block) name
    then name +:+ "_" +:+ pretty (length (usedNames block))
    else name in
  (alias,
   {| hydrate := hydrate block; destroy := destroy block;
      bindings := bindings block; variables := variables block;
      usedNames := usedNames block ++ [alias] |}).

Definition sample_addVariable (block : Block) (name init : string) : Block :=
  {| hydrate := hydrate block; destroy := destroy block;
     bindings := bindings block;
     variables := variables block ++ [(name, init)];
     usedNames := usedNames block |}.

Definition sample : Collaborators :=
  {| dimensions_test := sample_dimensions;
     getObject_name := sample_object_name;
     flattenReference_parts := sample_parts;
     getTailSnippet := sample_tail;
     getUniqueName := sample_unique;
     addVariable := sample_addVariable |}.

Definition no_attributes (attr : string) : StaticValue := SNull.

Definition typed (kind : string) (attr : string) : StaticValue :=
  if String.eqb attr "type" then SText kind else SNull.

Definition element (name var : string) (attrs : string -> StaticValue)
    (media : bool) : Element.t :=
  {| Element.name := name; Element.var := var;
     Element.getStaticAttributeValue := attrs;
     Element.isMediaNode := media |}.

Definition empty_compiler : Compiler :=
  {| bindingGroups := []; indirectDependencies := ∅; computations := [] |}.

Definition empty_block : Block :=
  {| hydrate := []; destroy := []; bindings := ∅; variables := [];
     usedNames := [] |}.

(** The target [foo] at offset 0. *)
Definition foo_expression : Expression.t :=
  {| Expression.node := Identifier "foo" 0 3;
     Expression.snippet := "ctx.foo";
     Expression.dependencies := ["foo"] |}.

(** The target [selected.items] at offset 0. *)
Definition items_node : AstNode :=
  MemberExpression (Identifier "selected" 0 8) (Identifier "items" 9 14)
    false 0 14.

Definition items_expression : Expression.t :=
  {| Expression.node := items_node;
     Expression.snippet := "ctx.selected.items";
     Expression.dependencies := ["selected"] |}.

Definition top_scope : Scope := {| names := [] |}.

(** The target [$count], a store value. *)
Definition count_expression : Expression.t :=
  {| Expression.node := Identifier "$count" 0 6;
     Expression.snippet := "$.count";
     Expression.dependencies := ["$count"] |}.

(** [bind:name=target] on [node], at the top level of a component. *)
Definition bind (node : Element.t) (name : string) (target : Expression.t)
    : Binding.t :=
  @Binding_new sample node top_scope name target.

Definition video : Element.t := element "video" "video" no_attributes true.
Definition audio : Element.t := element "audio" "audio" no_attributes true.
Definition div : Element.t := element "div" "div" no_attributes false.
Definition text_input : Element.t :=
  element "input" "input" (typed "text") false.
Definition checkbox0 : Element.t :=
  element "input" "input0" (typed "checkbox") false.
Definition checkbox1 : Element.t :=
  element "input" "input1" (typed "checkbox") false.

(** A compiler in which [selected] selects into [options], and [total] is
    computed. *)
Definition selecting_compiler : Compiler :=
  {| bindingGroups := [];
     indirectDependencies := {[ "selected" := ["options"; "total"] ]};
     computations := [ {| key := "total" |} ] |}.

(** ** Statements of the specification kept for comparison *)

(** The exempt hosts of the change lock: an input whose static type is
    radio, checkbox, range or color. *)
Definition exempt_input (node : Element.t) : Prop :=
  Element.name node = "input"
  /\ exists kind,
       kind ∈ ["radio"; "checkbox"; "range"; "color"]
       /\ Element.getStaticAttributeValue node "type" = SText kind.

(** The change lock as the specification words it: set unless the host is
    exempt, clear when it is. *)
Definition needsLock_by_host_alone `{Collaborators} (compiler : Compiler)
    (block : Block) (this : Binding.t) : Prop :=
  let result := (munge compiler block this).1.1 in
  (~ exempt_input (Binding.parent this) -> Munged.needsLock result = true)
  /\ (exempt_input (Binding.parent this) -> Munged.needsLock result = false).


(** The member expressions met when walking down the [object] fields from a
    node, outermost first. *)
Fixpoint object_chain (n : AstNode) : list AstNode :=
  match n with
  | MemberExpression object _ _ _ _ => n :: object_chain object
  | _ => []
  end.

(** [node.computed] *)
Definition computed_flag (n : AstNode) : bool :=
  match n with
  | MemberExpression _ _ computed _ _ => computed
  | _ => false
  end.

(** * Properties *)

(** ** Arrays and sets *)

Lemma Set_has_elem (s : list string) (x : string) :
  Set_has s x = true <-> x ∈ s.
Proof.
  unfold Set_has. rewrite existsb_exists. split.
  - intros (y & Hin & Heq). apply String.eqb_eq in Heq. subst y.
    now apply list_elem_of_In.
  - intros Hin. exists x. split; [now apply list_elem_of_In|].
    apply String.eqb_refl.
Qed.

Lemma Set_has_not_elem (s : list string) (x : string) :
  Set_has s x = false <-> x ∉ s.
Proof.
  rewrite <- Set_has_elem. destruct (Set_has s x); split; congruence.
Qed.

Lemma indexOf_from_absent (l : list string) (x : string) (i : Z) :
  0 <= i -> (indexOf_from i l x = -1 <-> x ∉ l).
Proof.
  revert i. induction l as [|y l IH]; intros i Hi; simpl.
  - split; [intros _; apply not_elem_of_nil | reflexivity].
  - destruct (String.eqb_spec y x) as [->|Hne].
    + split; [lia | intros Hn; exfalso; apply Hn; left].
    + rewrite IH by lia. rewrite not_elem_of_cons. intuition congruence.
Qed.

Lemma indexOf_from_present (l : list string) (x : string) (i : Z) :
  x ∈ l ->
  i <= indexOf_from i l x < i + Z.of_nat (length l)
  /\ l !! Z.to_nat (indexOf_from i l x - i) = Some x.
Proof.
  revert i. induction l as [|y l IH]; intros i Hin.
  - now apply elem_of_nil in Hin.
  - simpl. destruct (String.eqb_spec y x) as [->|Hne].
    + replace (i - i) with 0 by lia. simpl. split; [lia | reflexivity].
    + apply elem_of_cons in Hin as [Heq|Hin]; [congruence|].
      destruct (IH (i + 1) Hin) as [Hrange Hlook]. split; [lia|].
      replace (Z.to_nat (indexOf_from (i + 1) l x - i))
        with (S (Z.to_nat (indexOf_from (i + 1) l x - (i + 1)))) by lia.
      exact Hlook.
Qed.

Lemma indexOf_from_app_present (l l' : list string) (x : string) (i : Z) :
  x ∈ l -> indexOf_from i (l ++ l') x = indexOf_from i l x.
Proof.
  revert i. induction l as [|y l IH]; intros i Hin.
  - now apply elem_of_nil in Hin.
  - simpl. destruct (String.eqb_spec y x) as [->|Hne]; [reflexivity|].
    apply elem_of_cons in Hin as [Heq|Hin]; [congruence|]. now apply IH.
Qed.

Lemma indexOf_from_app_new (l : list string) (x : string) (i : Z) :
  x ∉ l -> indexOf_from i (l ++ [x]) x = i + Z.of_nat (length l).
Proof.
  revert i. induction l as [|y l IH]; intros i Hnin; simpl.
  - rewrite String.eqb_refl. lia.
  - apply not_elem_of_cons in Hnin as [Hne Hnin].
    destruct (String.eqb_spec y x) as [->|_]; [congruence|].
    rewrite IH by assumption. lia.
Qed.

(** ** One step of the registry *)

Lemma groupIndex_known (groups : list string) (keypath : string) :
  keypath ∈ groups ->
  groupIndex groups keypath = (indexOf groups keypath, groups).
Proof.
  intros Hin. unfold groupIndex.
  destruct (indexOf_from_present groups keypath 0 Hin) as [Hrange _].
  fold (indexOf groups keypath) in Hrange.
  destruct (Z.eqb_spec (indexOf groups keypath) (-1)); [lia | reflexivity].
Qed.

Lemma groupIndex_new (groups : list string) (keypath : string) :
  keypath ∉ groups ->
  groupIndex groups keypath
  = (Z.of_nat (length groups), groups ++ [keypath]).
Proof.
  intros Hnin. unfold groupIndex.
  apply (indexOf_from_absent groups keypath 0) in Hnin; [|lia].
  fold (indexOf groups keypath) in Hnin. now rewrite Hnin.
Qed.

Lemma groupIndex_spec (groups : list string) (keypath : string) :
  let '(index, groups') := groupIndex groups keypath in
  groups `prefix_of` groups'
  /\ keypath ∈ groups'
  /\ indexOf groups' keypath = index.
Proof.
  destruct (decide (keypath ∈ groups)) as [Hin|Hnin].
  - rewrite groupIndex_known by assumption. repeat split; trivial.
  - rewrite groupIndex_new by assumption. repeat split.
    + now apply prefix_app_r.
    + apply elem_of_app. right. now apply list_elem_of_singleton.
    + unfold indexOf. rewrite indexOf_from_app_new by assumption. lia.
Qed.

(** ** A sequence of registry calls *)

Lemma registry_run_length (keypaths groups : list string) :
  length (registry_run groups keypaths).1 = length keypaths.
Proof.
  revert groups. induction keypaths as [|k rest IH]; intros groups; simpl.
  - reflexivity.
  - destruct (groupIndex groups k) as [i g1].
    specialize (IH g1). destruct (registry_run g1 rest) as [indices final].
    simpl in *. now rewrite IH.
Qed.

Lemma registry_run_prefix (keypaths groups : list string) :
  groups `prefix_of` (registry_run groups keypaths).2.
Proof.
  revert groups. induction keypaths as [|k rest IH]; intros groups; simpl.
  - reflexivity.
  - pose proof (groupIndex_spec groups k) as Hstep.
    destruct (groupIndex groups k) as [i g1]. destruct Hstep as (Hpre & _).
    specialize (IH g1). destruct (registry_run g1 rest) as [indices final].
    simpl in *. now transitivity g1.
Qed.

Lemma registry_run_app (ks1 ks2 groups : list string) :
  registry_run groups (ks1 ++ ks2)
  = ((registry_run groups ks1).1
       ++ (registry_run (registry_run groups ks1).2 ks2).1,
     (registry_run (registry_run groups ks1).2 ks2).2).
Proof.
  revert groups. induction ks1 as [|k rest IH]; intros groups; simpl.
  - now destruct (registry_run groups ks2).
  - destruct (groupIndex groups k) as [i g1]. rewrite IH.
    destruct (registry_run g1 rest) as [indices final]. reflexivity.
Qed.

(** Every index handed out is the position of its keypath in the registry
    left at the end. *)
Lemma registry_run_indexOf (keypaths groups : list string) (n : nat)
    (k : string) (i : Z) :
  keypaths !! n = Some k ->
  (registry_run groups keypaths).1 !! n = Some i ->
  k ∈ (registry_run groups keypaths).2
  /\ indexOf (registry_run groups keypaths).2 k = i.
Proof.
  revert groups n. induction keypaths as [|k0 rest IH]; intros groups n Hk Hi.
  - discriminate.
  - simpl in *. pose proof (groupIndex_spec groups k0) as Hstep.
    destruct (groupIndex groups k0) as [i0 g1].
    destruct Hstep as (_ & Hin & Hidx).
    pose proof (registry_run_prefix rest g1) as Hpre.
    specialize (IH g1).
    destruct (registry_run g1 rest) as [indices final]. simpl in *.
    destruct n as [|n]; simpl in *.
    + injection Hk as ->. injection Hi as ->.
      destruct Hpre as [extra ->]. split.
      * apply elem_of_app. now left.
      * unfold indexOf in *. now rewrite indexOf_from_app_present.
    + now apply IH with n.
Qed.

(** Starting from a registry without repetition, the registry stays without
    repetition and holds the old entries and the keypaths asked for. *)
Lemma registry_run_NoDup (keypaths groups : list string) :
  NoDup groups ->
  NoDup (registry_run groups keypaths).2
  /\ (forall x, x ∈ (registry_run groups keypaths).2
                <-> x ∈ groups \/ x ∈ keypaths).
Proof.
  revert groups. induction keypaths as [|k rest IH]; intros groups Hnd; simpl.
  - split; [assumption|]. intros x. rewrite elem_of_nil. tauto.
  - destruct (decide (k ∈ groups)) as [Hin|Hnin].
    + rewrite groupIndex_known by assumption.
      destruct (IH groups Hnd) as [Hnd' Hmem].
      destruct (registry_run groups rest) as [indices final]. simpl in *.
      split; [assumption|]. intros x. rewrite Hmem, elem_of_cons.
      intuition (subst; auto).
    + rewrite groupIndex_new by assumption.
      assert (NoDup (groups ++ [k])) as Hnd1.
      { apply NoDup_app. repeat split; trivial.
        - intros x Hx Hx'. apply list_elem_of_singleton in Hx'. now subst.
        - apply NoDup_singleton. }
      destruct (IH _ Hnd1) as [Hnd' Hmem].
      destruct (registry_run (groups ++ [k]) rest) as [indices final].
      simpl in *. split; [assumption|]. intros x.
      rewrite Hmem, elem_of_app, list_elem_of_singleton, elem_of_cons. tauto.
Qed.

(** From the empty registry, a keypath not asked for before receives the
    number of distinct keypaths asked for before it. *)
Lemma registry_run_fresh (keypaths : list string) (n : nat) (k : string)
    (i : Z) :
  keypaths !! n = Some k ->
  (registry_run [] keypaths).1 !! n = Some i ->
  k ∉ take n keypaths ->
  i = Z.of_nat (size (list_to_set (take n keypaths) : gset string)).
Proof.
  intros Hk Hi Hfresh.
  rewrite <- (take_drop_middle keypaths n k Hk) in Hi.
  rewrite registry_run_app in Hi. simpl in Hi.
  destruct (registry_run_NoDup (take n keypaths) [] (NoDup_nil_2))
    as [Hnd Hmem].
  pose proof (registry_run_length (take n keypaths) []) as Hlen.
  destruct (registry_run [] (take n keypaths)) as [indices1 g1] eqn:Hrun1.
  simpl in *.
  assert (k ∉ g1) as Hnin.
  { rewrite Hmem. rewrite elem_of_nil. tauto. }
  rewrite groupIndex_new in Hi by assumption.
  destruct (registry_run (g1 ++ [k]) (drop (S n) keypaths))
    as [indices2 final].
  simpl in Hi. rewrite lookup_app_r in Hi by (rewrite Hlen, length_take; lia).
  assert (n < length keypaths)%nat as Hn by (eapply lookup_lt_Some; eauto).
  replace (n - length indices1)%nat with 0%nat in Hi
    by (rewrite Hlen, length_take; lia).
  simpl in Hi. injection Hi as <-. f_equal.
  rewrite <- (size_list_to_set (C := gset string) g1) by assumption.
  f_equal. apply set_eq. intros x. rewrite !elem_of_list_to_set, Hmem.
  rewrite elem_of_nil. tauto.
Qed.

(** ** The registry behind [getBindingGroup] *)

Section Registry.
Context `{Collaborators}.


Lemma getBindingGroup_step (compiler : Compiler) (value : AstNode) :
  getBindingGroup compiler value
  = ((groupIndex (bindingGroups compiler) (keypath_of value)).1,
     set_bindingGroups compiler
       (groupIndex (bindingGroups compiler) (keypath_of value)).2).
Proof.
  unfold getBindingGroup, keypath_of.
  now destruct (groupIndex _ _).
Qed.

Lemma getBindingGroup_all_run (values : list AstNode) (compiler : Compiler) :
  getBindingGroup_all compiler values
  = ((registry_run (bindingGroups compiler) (map keypath_of values)).1,
     set_bindingGroups compiler
       (registry_run (bindingGroups compiler) (map keypath_of values)).2).
Proof.
  revert compiler. induction values as [|v rest IH]; intros compiler; simpl.
  - now destruct compiler.
  - rewrite getBindingGroup_step, IH. simpl.
    destruct (groupIndex (bindingGroups compiler) (keypath_of v)) as [i g1].
    simpl. destruct (registry_run g1 (map keypath_of rest)). reflexivity.
Qed.

(** C2: the binding-group registry is an allocate-or-lookup map.  Over any
    sequence of calls of [getBindingGroup], two calls return the same index
    exactly when their keypaths are the same string; the registry only
    grows at its end, so every index handed out keeps designating its
    keypath; and, from the empty registry, a keypath seen for the first
    time receives the number of distinct keypaths seen before it (0 for
    the first one). *)
Theorem getBindingGroup_allocate_or_lookup (compiler : Compiler)
    (values : list AstNode) :
  let indices := (getBindingGroup_all compiler values).1 in
  let final := bindingGroups (getBindingGroup_all compiler values).2 in
  length indices = length values
  /\ (forall m n v1 v2 i1 i2,
        values !! m = Some v1 -> values !! n = Some v2 ->
        indices !! m = Some i1 -> indices !! n = Some i2 ->
        (keypath_of v1 = keypath_of v2 <-> i1 = i2))
  /\ bindingGroups compiler `prefix_of` final
  /\ (forall n v i,
        values !! n = Some v -> indices !! n = Some i ->
        0 <= i /\ final !! Z.to_nat i = Some (keypath_of v))
  /\ (bindingGroups compiler = [] ->
      forall n v i,
        values !! n = Some v -> indices !! n = Some i ->
        keypath_of v ∉ map keypath_of (take n values) ->
        i = Z.of_nat
              (size (list_to_set (map keypath_of (take n values))
                       : gset string))).
Proof.
  rewrite getBindingGroup_all_run. simpl.
  set (groups := bindingGroups compiler).
  set (keypaths := map keypath_of values).
  assert (forall n v i,
             values !! n = Some v ->
             (registry_run groups keypaths).1 !! n = Some i ->
             keypath_of v ∈ (registry_run groups keypaths).2
             /\ indexOf (registry_run groups keypaths).2 (keypath_of v) = i)
    as Hpos.
  { intros n v i Hv Hi. apply registry_run_indexOf with n; [|assumption].
    unfold keypaths. rewrite list_lookup_fmap, Hv. reflexivity. }
  split; [|split; [|split; [|split]]].
  - rewrite registry_run_length. unfold keypaths. apply length_map.
  - intros m n v1 v2 i1 i2 Hv1 Hv2 Hi1 Hi2.
    destruct (Hpos _ _ _ Hv1 Hi1) as [Hin1 Hidx1].
    destruct (Hpos _ _ _ Hv2 Hi2) as [Hin2 Hidx2].
    split.
    + intros Heq. rewrite Heq in Hidx1. congruence.
    + intros ->.
      destruct (indexOf_from_present _ _ 0 Hin1) as [_ Hl1].
      destruct (indexOf_from_present _ _ 0 Hin2) as [_ Hl2].
      fold (indexOf (registry_run groups keypaths).2 (keypath_of v1)) in Hl1.
      fold (indexOf (registry_run groups keypaths).2 (keypath_of v2)) in Hl2.
      rewrite Hidx1 in Hl1. rewrite Hidx2 in Hl2. congruence.
  - apply registry_run_prefix.
  - intros n v i Hv Hi. destruct (Hpos _ _ _ Hv Hi) as [Hin Hidx].
    destruct (indexOf_from_present _ _ 0 Hin) as [Hrange Hl].
    fold (indexOf (registry_run groups keypaths).2 (keypath_of v))
      in Hrange, Hl.
    rewrite Hidx in Hrange, Hl. split; [lia|].
    now replace (i - 0) with i in Hl by lia.
  - intros Hempty n v i Hv Hi Hfresh. rewrite Hempty in Hi.
    rewrite <- firstn_map. fold keypaths.
    apply registry_run_fresh with (k := keypath_of v); trivial.
    + unfold keypaths. rewrite list_lookup_fmap, Hv. reflexivity.
    + unfold keypaths. now rewrite firstn_map.
Qed.

End Registry.

(** ** The dependency set *)

Lemma Set_add_elem (s : list string) (x y : string) :
  x ∈ Set_add s y <-> x ∈ s \/ x = y.
Proof.
  unfold Set_add. destruct (Set_has s y) eqn:Hhas.
  - apply Set_has_elem in Hhas. intuition (subst; auto).
  - rewrite elem_of_app, list_elem_of_singleton. tauto.
Qed.

Lemma Set_add_NoDup (s : list string) (y : string) :
  NoDup s -> NoDup (Set_add s y).
Proof.
  intros Hnd. unfold Set_add. destruct (Set_has s y) eqn:Hhas; [assumption|].
  apply Set_has_not_elem in Hhas. apply NoDup_app. repeat split; trivial.
  - intros x Hx Hx'. apply list_elem_of_singleton in Hx'. now subst.
  - apply NoDup_singleton.
Qed.

Lemma Set_add_all_elem (l s : list string) (x : string) :
  x ∈ fold_left Set_add l s <-> x ∈ s \/ x ∈ l.
Proof.
  revert s. induction l as [|y l IH]; intros s; simpl.
  - rewrite elem_of_nil. tauto.
  - rewrite IH, Set_add_elem, elem_of_cons. tauto.
Qed.

Lemma Set_add_all_NoDup (l s : list string) :
  NoDup s -> NoDup (fold_left Set_add l s).
Proof.
  revert s. induction l as [|y l IH]; intros s Hnd; simpl; [assumption|].
  apply IH. now apply Set_add_NoDup.
Qed.

Lemma Set_new_elem (l : list string) (x : string) : x ∈ Set_new l <-> x ∈ l.
Proof.
  unfold Set_new. rewrite Set_add_all_elem, elem_of_nil. tauto.
Qed.


Lemma expand_fold_elem (compiler : Compiler) (base acc : list string)
    (d : string) :
  d ∈ fold_left
        (fun dependencies prop =>
           match indirectDependencies compiler !! prop with
           | Some indirect => fold_left Set_add indirect dependencies
           | None => dependencies
           end) base acc
  <-> d ∈ acc \/ indirect_of compiler base d.
Proof.
  revert acc. induction base as [|p base IH]; intros acc; simpl.
  - split; [now left | intros [Hd|(p & ind & Hp & _)]; [assumption|]].
    now apply elem_of_nil in Hp.
  - rewrite IH. split.
    + intros [Hd|(q & ind & Hq & Hlook & Hd)].
      * destruct (indirectDependencies compiler !! p) as [ind|] eqn:Hlook.
        -- apply Set_add_all_elem in Hd as [Hd|Hd]; [now left|].
           right. exists p, ind. repeat split; trivial. left.
        -- now left.
      * right. exists q, ind. repeat split; trivial. now right.
    + intros [Hd|(q & ind & Hq & Hlook & Hd)].
      * left. destruct (indirectDependencies compiler !! p);
          [apply Set_add_all_elem|]; auto.
      * apply elem_of_cons in Hq as [->|Hq].
        -- left. rewrite Hlook. apply Set_add_all_elem. now right.
        -- right. exists q, ind. repeat split; trivial.
Qed.

Lemma expand_fold_NoDup (compiler : Compiler) (base acc : list string) :
  NoDup acc ->
  NoDup (fold_left
           (fun dependencies prop =>
              match indirectDependencies compiler !! prop with
              | Some indirect => fold_left Set_add indirect dependencies
              | None => dependencies
              end) base acc).
Proof.
  revert acc. induction base as [|p base IH]; intros acc Hnd; simpl;
    [assumption|].
  apply IH. destruct (indirectDependencies compiler !! p);
    [now apply Set_add_all_NoDup | assumption].
Qed.

Lemma expandDependencies_elem (compiler : Compiler) (base : list string)
    (d : string) :
  d ∈ expandDependencies compiler base
  <-> d ∈ base \/ indirect_of compiler base d.
Proof.
  unfold expandDependencies. now rewrite expand_fold_elem, Set_new_elem.
Qed.

Lemma expandDependencies_NoDup (compiler : Compiler) (base : list string) :
  NoDup (expandDependencies compiler base).
Proof.
  apply expand_fold_NoDup. apply Set_add_all_NoDup. constructor.
Qed.

(** ** The fields of the synthesized result *)

Section Munge.
Context `{Collaborators}.
Variables (compiler : Compiler) (block : Block) (this : Binding.t).

Let node := Binding.parent this.
Let bname := Binding.name this.
Let snippet := Expression.snippet (Binding.value this).
Let result := (munge compiler block this).1.1.


Ltac run_munge :=
  unfold result, munge;
  destruct (getValueFromDom compiler (Binding.parent this) this)
    as [valueFromDom compiler1];
  destruct (getBindingGroup compiler1
              (Expression.node (Binding.value this)))
    as [bindingGroup compiler2].

Ltac by_name :=
  repeat match goal with
    | |- context [String.eqb (Binding.name this) ?s] =>
        destruct (String.eqb_spec (Binding.name this) s)
    end.

Lemma munge_needsLock :
  Munged.needsLock result
  = negb (isReadOnly node this) && input_needsLock node.
Proof.
  run_munge. by_name;
    repeat (destruct (getUniqueName _ _));
    destruct (dimensions_test _); reflexivity.
Qed.

Lemma munge_isReadOnlyMediaAttribute :
  Munged.isReadOnlyMediaAttribute result = isReadOnlyMediaAttribute this.
Proof.
  run_munge. by_name;
    repeat (destruct (getUniqueName _ _));
    destruct (dimensions_test _); reflexivity.
Qed.

Lemma munge_handler :
  Munged.handler result
  = getEventHandler this (getValueFromDom compiler node this).2 block
      (getObject_name (Expression.node (Binding.value this))) snippet
      (expandDependencies compiler
         (Expression.dependencies (Binding.value this)))
      (getValueFromDom compiler node this).1.
Proof.
  unfold node. run_munge. by_name;
    repeat (destruct (getUniqueName _ _));
    destruct (dimensions_test _); reflexivity.
Qed.

Lemma munge_updateDom :
  Munged.updateDom result
  = if dimensions_test bname then None
    else if String.eqb bname "paused" then
      Some (Element.var node +:+ "[" +:+ paused_cell block this +:+ " ? "
              +:+ quoted "pause" +:+ " : " +:+ quoted "play" +:+ "]();")
    else getDomUpdater node this snippet.
Proof.
  unfold paused_cell, bname, node, snippet. run_munge.
  by_name; try congruence;
    repeat (destruct (getUniqueName _ _));
    destruct (dimensions_test _); reflexivity.
Qed.

Lemma munge_initialUpdate :
  Munged.initialUpdate result
  = if dimensions_test bname then None
    else if String.eqb bname "paused" then None
    else if String.eqb bname "currentTime" then None
    else getDomUpdater node this snippet.
Proof.
  unfold bname, node. run_munge.
  by_name; try congruence;
    repeat (destruct (getUniqueName _ _));
    destruct (dimensions_test _); reflexivity.
Qed.

Lemma munge_updateCondition :
  Munged.updateCondition result
  = if String.eqb bname "paused" then
      Some (paused_cell block this +:+ " !== (" +:+ paused_cell block this +:+ " = "
              +:+ snippet +:+ ")")
    else if String.eqb bname "currentTime" || String.eqb bname "volume"
    then Some ("!isNaN(" +:+ snippet +:+ ")")
    else None.
Proof.
  unfold paused_cell, bname, node, snippet. run_munge.
  by_name; try congruence;
    repeat (destruct (getUniqueName _ _));
    destruct (dimensions_test _); reflexivity.
Qed.

End Munge.

(** ** Generated text *)

Lemma length_append (a b : string) :
  String.length (a +:+ b) = (String.length a + String.length b)%nat.
Proof. induction a as [|c a IH]; simpl; [reflexivity | now rewrite IH]. Qed.

Lemma append_same_length (a b x y : string) :
  String.length a = String.length b -> a +:+ x = b +:+ y -> a = b /\ x = y.
Proof.
  revert b. induction a as [|c a IH]; intros [|d b] Hlen Heq;
    try discriminate; simpl in *.
  - now split.
  - injection Heq as -> Heq. injection Hlen as Hlen.
    destruct (IH b Hlen Heq) as [-> ->]. now split.
Qed.

Lemma ctx_prop_inj (a b : string) : ctx_prop a = ctx_prop b -> a = b.
Proof.
  unfold ctx_prop. intros Heq.
  assert (String.length a = String.length b) as Hlen.
  { apply (f_equal String.length) in Heq.
    rewrite !length_append in Heq. simpl in Heq. lia. }
  now destruct (append_same_length _ _ _ _ Hlen Heq).
Qed.

Lemma is_computation_key (compiler : Compiler) (prop : string) :
  is_computation compiler prop = true
  <-> exists computation,
        computation ∈ computations compiler /\ key computation = prop.
Proof.
  unfold is_computation. rewrite existsb_exists. split.
  - intros (c & Hin & Heq). exists c. split; [now apply list_elem_of_In|].
    now apply String.eqb_eq.
  - intros (c & Hin & Heq). exists c. split; [now apply list_elem_of_In|].
    now apply String.eqb_eq.
Qed.

(** ** The event handler *)

(** C3: for a target that is a member expression outside any contextual
    scope, and for every dependency set, the props of the event handler are
    the entries of dependency names none of which is the key of a
    computation; no entry of a computed name is among them. *)
Theorem getEventHandler_member_excludes_computed `{Collaborators}
    (binding : Binding.t) (compiler : Compiler) (block : Block)
    (name snippet : string) (dependencies : list string) (value : string) :
  Binding.isContextual binding = false ->
  is_MemberExpression (Expression.node (Binding.value binding)) = true ->
  let handler :=
    getEventHandler binding compiler block name snippet dependencies value in
  (exists names,
      Handler.props handler = map ctx_prop names
      /\ forall prop, prop ∈ names ->
           prop ∈ dependencies
           /\ forall computation, computation ∈ computations compiler ->
                key computation <> prop)
  /\ (forall computation, computation ∈ computations compiler ->
        ctx_prop (key computation) ∉ Handler.props handler).
Proof.
  intros Hctx Hmember. unfold getEventHandler. rewrite Hctx, Hmember. simpl.
  set (names :=
         List.filter (fun prop => negb (is_computation compiler prop))
           (List.filter (fun prop => negb (first_is_sigil prop)) dependencies)).
  assert (forall prop, prop ∈ names ->
            prop ∈ dependencies
            /\ forall computation, computation ∈ computations compiler ->
                 key computation <> prop) as Hnames.
  { intros prop Hin. apply list_elem_of_In in Hin. unfold names in Hin.
    apply filter_In in Hin as [Hin Hcomp]. apply filter_In in Hin as [Hin _].
    split; [now apply list_elem_of_In|]. intros c Hc Hkey.
    apply negb_true_iff in Hcomp.
    assert (is_computation compiler prop = true) as Hyes
      by (apply is_computation_key; eauto).
    congruence. }
  split.
  - exists names. split; [reflexivity | exact Hnames].
  - intros c Hc Hin. apply list_elem_of_fmap in Hin as (prop & Heq & Hin).
    apply ctx_prop_inj in Heq. destruct (Hnames prop Hin) as [_ Hno].
    now apply (Hno c Hc).
Qed.

(** C7: for a target that is a bare identifier outside any contextual scope
    the handler has no mutation statement; a store-prefixed name yields no
    props and the single store entry of the name without its sigil, any
    other name yields the single props entry and no store entry. *)
Theorem getEventHandler_identifier `{Collaborators}
    (binding : Binding.t) (compiler : Compiler) (block : Block)
    (name snippet : string) (dependencies : list string) (value : string) :
  Binding.isContextual binding = false ->
  is_MemberExpression (Expression.node (Binding.value binding)) = false ->
  let handler :=
    getEventHandler binding compiler block name snippet dependencies value in
  Handler.mutation handler = None
  /\ (first_is_sigil name = true ->
      Handler.props handler = []
      /\ Handler.storeProps handler = [slice1 name +:+ ": " +:+ value])
  /\ (first_is_sigil name = false ->
      Handler.props handler = [name +:+ ": " +:+ value]
      /\ Handler.storeProps handler = []).
Proof.
  intros Hctx Hident. unfold getEventHandler. rewrite Hctx, Hident.
  destruct (first_is_sigil name); simpl; repeat split; congruence.
Qed.

(** ** The change lock *)

Lemma regexp_test_false (alternatives : list string) (s : string) :
  regexp_test alternatives s = false
  <-> forall a, a ∈ alternatives -> includes a s = false.
Proof.
  unfold regexp_test. induction alternatives as [|a l IH]; simpl.
  - split; [|reflexivity]. intros _ a Ha. now apply elem_of_nil in Ha.
  - rewrite orb_false_iff, IH. split.
    + intros [Ha Hl] b Hb. apply elem_of_cons in Hb as [->|Hb]; auto.
    + intros Hall. split; [apply Hall; left|].
      intros b Hb. apply Hall. now right.
Qed.

Lemma includes_self (s : string) : includes s s = true.
Proof.
  assert (String.prefix s s = true) as Hp
    by (induction s as [|c s IH]; simpl;
        [reflexivity | now destruct (ascii_dec c c)]).
  destruct s; simpl in *; [reflexivity | now rewrite Hp].
Qed.

Lemma regexp_test_member (alternatives : list string) (s : string) :
  s ∈ alternatives -> regexp_test alternatives s = true.
Proof.
  intros Hin. unfold regexp_test. apply existsb_exists. exists s.
  split; [now apply list_elem_of_In | apply includes_self].
Qed.

(** C1 (amended): a directive that is not read-only gets the change lock
    when its host is not an input, or is an input whose static type mentions
    none of radio, checkbox, range and color; an input whose static type is
    one of these four gets no lock, and neither does any read-only
    directive. *)
Theorem munge_needsLock_exempt `{Collaborators} (compiler : Compiler)
    (block : Block) (this : Binding.t) :
  let node := Binding.parent this in
  let type := Element.getStaticAttributeValue node "type" in
  let result := (munge compiler block this).1.1 in
  (isReadOnly node this = false ->
   Element.name node <> "input"
   \/ (forall kind, kind ∈ ["radio"; "checkbox"; "range"; "color"] ->
         includes kind (to_js_string type) = false) ->
   Munged.needsLock result = true)
  /\ (Element.name node = "input" ->
      (exists kind,
          kind ∈ ["radio"; "checkbox"; "range"; "color"]
          /\ type = SText kind) ->
      Munged.needsLock result = false)
  /\ (isReadOnly node this = true -> Munged.needsLock result = false).
Proof.
  intros node type result. unfold result. rewrite munge_needsLock.
  fold node. unfold input_needsLock. fold type.
  split; [|split].
  - intros -> [Hname|Hkinds].
    + apply String.eqb_neq in Hname. now rewrite Hname.
    + apply regexp_test_false in Hkinds. rewrite Hkinds. simpl.
      apply orb_true_r.
  - intros Hname (kind & Hkind & Htype). rewrite Hname, Htype.
    change (to_js_string (SText kind)) with kind.
    rewrite (regexp_test_member _ kind Hkind). apply andb_false_r.
  - now intros ->.
Qed.

(** ** Read-only bindings *)

Lemma getDomUpdater_read_only (node : Element.t) (this : Binding.t)
    (snippet : string) :
  Binding.name this ∈ readOnlyMediaAttributes ->
  getDomUpdater node this snippet = None.
Proof.
  intros Hin. unfold getDomUpdater, isReadOnlyMediaAttribute.
  apply Set_has_elem in Hin. now rewrite Hin.
Qed.

Lemma read_only_name_cases (name : string) :
  name ∈ readOnlyMediaAttributes ->
  name <> "paused" /\ name <> "currentTime" /\ name <> "group".
Proof.
  unfold readOnlyMediaAttributes. intros Hin.
  repeat (apply elem_of_cons in Hin as [->|Hin]; [repeat split; discriminate|]).
  now apply elem_of_nil in Hin.
Qed.

(** C4: a directive named after a read-only media attribute on a media
    element, or after a dimension, is read-only: the result carries no write
    statement, neither for updates nor for the first render, and no change
    lock, and its [isReadOnlyMediaAttribute] flag says whether the name is
    one of duration, buffered, seekable and played. *)
Theorem munge_read_only `{Collaborators} (compiler : Compiler)
    (block : Block) (this : Binding.t) :
  let node := Binding.parent this in
  let result := (munge compiler block this).1.1 in
  (Element.isMediaNode node = true
   /\ Binding.name this ∈ ["duration"; "buffered"; "seekable"; "played"])
  \/ dimensions_test (Binding.name this) = true ->
  Munged.updateDom result = None
  /\ Munged.initialUpdate result = None
  /\ isReadOnly node this = true
  /\ Munged.needsLock result = false
  /\ (Munged.isReadOnlyMediaAttribute result = true
      <-> Binding.name this ∈ ["duration"; "buffered"; "seekable"; "played"]).
Proof.
  intros node result Hro. unfold result.
  rewrite munge_updateDom, munge_initialUpdate, munge_needsLock,
    munge_isReadOnlyMediaAttribute.
  fold node. unfold isReadOnlyMediaAttribute. rewrite Set_has_elem.
  assert (isReadOnly node this = true) as Hread.
  { unfold isReadOnly. destruct Hro as [[Hmedia Hin]|Hdim].
    - apply Set_has_elem in Hin. fold readOnlyMediaAttributes in Hin.
      now rewrite Hmedia, Hin.
    - rewrite Hdim. apply orb_true_r. }
  rewrite Hread. repeat split; trivial.
  - destruct Hro as [[_ Hin]|Hdim]; [|now rewrite Hdim].
    destruct (read_only_name_cases _ Hin) as (Hp & _).
    apply String.eqb_neq in Hp. rewrite Hp.
    rewrite getDomUpdater_read_only by assumption.
    now destruct (dimensions_test _).
  - destruct Hro as [[_ Hin]|Hdim]; [|now rewrite Hdim].
    destruct (read_only_name_cases _ Hin) as (Hp & Hc & _).
    apply String.eqb_neq in Hp, Hc. rewrite Hp, Hc.
    rewrite getDomUpdater_read_only by assumption.
    now destruct (dimensions_test _).
Qed.

(** C10: a directive named after a read-only media attribute on an element
    that is not a media element still gets no write statement and still has
    [isReadOnlyMediaAttribute] set, although, the name being no dimension,
    the read-only test of the lock computation fails for it and the lock is
    decided by the element alone. *)
Theorem munge_media_name_off_media `{Collaborators} (compiler : Compiler)
    (block : Block) (this : Binding.t) :
  let node := Binding.parent this in
  let result := (munge compiler block this).1.1 in
  Element.isMediaNode node = false ->
  Binding.name this ∈ ["duration"; "buffered"; "seekable"; "played"] ->
  dimensions_test (Binding.name this) = false ->
  Munged.updateDom result = None
  /\ Munged.isReadOnlyMediaAttribute result = true
  /\ isReadOnly node this = false
  /\ Munged.needsLock result = input_needsLock node.
Proof.
  intros node result Hmedia Hin Hdim. unfold result.
  rewrite munge_updateDom, munge_needsLock, munge_isReadOnlyMediaAttribute.
  fold node. destruct (read_only_name_cases _ Hin) as (Hp & _).
  apply String.eqb_neq in Hp. rewrite Hp, Hdim.
  rewrite getDomUpdater_read_only by assumption.
  unfold isReadOnly, isReadOnlyMediaAttribute. rewrite Hmedia, Hdim.
  apply Set_has_elem in Hin. fold readOnlyMediaAttributes in Hin.
  rewrite Hin. now repeat split.
Qed.

(** ** Media overrides *)

Lemma getDomUpdater_writes (node : Element.t) (this : Binding.t)
    (snippet : string) :
  Binding.name this ∉ readOnlyMediaAttributes ->
  is_Some (getDomUpdater node this snippet).
Proof.
  intros Hnin. unfold getDomUpdater, isReadOnlyMediaAttribute.
  apply Set_has_not_elem in Hnin. rewrite Hnin.
  destruct (String.eqb (Element.name node) "select"); [eauto|].
  destruct (String.eqb (Binding.name this) "group"); eauto.
Qed.

(** C5: a directive named [currentTime], and a directive named after a
    dimension, has no first-render write.  A directive named [paused] has
    none either; its update condition compares its private cell with the new
    value while storing it, and its write statement is never the assignment
    to the [paused] property: [paused] being no dimension, it is the call of
    [pause] or [play] selected by the cell. *)
Theorem munge_currentTime_paused `{Collaborators} (compiler : Compiler)
    (block : Block) (this : Binding.t) :
  let node := Binding.parent this in
  let snippet := Expression.snippet (Binding.value this) in
  let result := (munge compiler block this).1.1 in
  let last := paused_cell block this in
  (Binding.name this = "currentTime"
   \/ dimensions_test (Binding.name this) = true ->
   Munged.initialUpdate result = None)
  /\ (Binding.name this = "paused" ->
      Munged.initialUpdate result = None
      /\ Munged.updateCondition result
         = Some (last +:+ " !== (" +:+ last +:+ " = " +:+ snippet +:+ ")")
      /\ Munged.updateDom result
         <> Some (Element.var node +:+ ".paused = " +:+ snippet +:+ ";")
      /\ (dimensions_test "paused" = false ->
          Munged.updateDom result
          = Some (Element.var node +:+ "[" +:+ last +:+ " ? "
                    +:+ quoted "pause" +:+ " : " +:+ quoted "play"
                    +:+ "]();"))).
Proof.
  intros node snippet result last. unfold result.
  rewrite munge_initialUpdate, munge_updateDom, munge_updateCondition.
  fold node snippet last. split.
  - intros [Hname|Hdim].
    + rewrite Hname. now destruct (dimensions_test _).
    + now rewrite Hdim.
  - intros Hname. rewrite Hname. simpl. split; [|split; [|split]].
    + now destruct (dimensions_test _).
    + reflexivity.
    + destruct (dimensions_test "paused"); [discriminate|].
      intros Heq. injection Heq as Heq.
      apply (inj (String.app (Element.var node))) in Heq. discriminate.
    + now intros ->.
Qed.

(** C6: a directive named [currentTime] or [volume] has the not-NaN test on
    the snippet of its value as update condition.  The first-render write is
    dropped for [currentTime]; for [volume], which is no dimension, it is
    kept: it is the write statement itself. *)
Theorem munge_notNaN_guard `{Collaborators} (compiler : Compiler)
    (block : Block) (this : Binding.t) :
  let node := Binding.parent this in
  let snippet := Expression.snippet (Binding.value this) in
  let result := (munge compiler block this).1.1 in
  (Binding.name this = "currentTime" \/ Binding.name this = "volume" ->
   Munged.updateCondition result = Some ("!isNaN(" +:+ snippet +:+ ")"))
  /\ (Binding.name this = "currentTime" ->
      Munged.initialUpdate result = None)
  /\ (Binding.name this = "volume" ->
      dimensions_test "volume" = false ->
      is_Some (Munged.initialUpdate result)
      /\ Munged.initialUpdate result = Munged.updateDom result
      /\ Munged.initialUpdate result = getDomUpdater node this snippet).
Proof.
  intros node snippet result. unfold result.
  rewrite munge_initialUpdate, munge_updateDom, munge_updateCondition.
  fold node snippet. split; [|split].
  - now intros [-> | ->].
  - intros ->. now destruct (dimensions_test _).
  - intros Hname Hdim. rewrite Hname, Hdim. simpl.
    repeat split. apply getDomUpdater_writes. rewrite Hname.
    unfold readOnlyMediaAttributes. intros Hin.
    repeat (apply elem_of_cons in Hin as [Hin|Hin]; [discriminate|]).
    now apply elem_of_nil in Hin.
Qed.

(** C8: the event handler is built from the dependencies of the target
    expanded through the indirect-dependency map: a name is in the set
    exactly when it is a dependency of the target or is registered as an
    indirect dependency of one, and the set holds no name twice. *)
Theorem munge_expands_dependencies `{Collaborators} (compiler : Compiler)
    (block : Block) (this : Binding.t) :
  let node := Binding.parent this in
  let base := Expression.dependencies (Binding.value this) in
  let dependencies := expandDependencies compiler base in
  Munged.handler (munge compiler block this).1.1
  = getEventHandler this (getValueFromDom compiler node this).2 block
      (getObject_name (Expression.node (Binding.value this)))
      (Expression.snippet (Binding.value this))
      dependencies
      (getValueFromDom compiler node this).1
  /\ NoDup dependencies
  /\ forall d,
       d ∈ dependencies
       <-> d ∈ base
           \/ exists p indirect,
                p ∈ base
                /\ indirectDependencies compiler !! p = Some indirect
                /\ d ∈ indirect.
Proof.
  intros node base dependencies. split; [apply munge_handler|].
  split; [apply expandDependencies_NoDup|].
  intros d. apply expandDependencies_elem.
Qed.

(** ** Grouped bindings *)


Lemma set_bindingGroups_same (compiler : Compiler) :
  set_bindingGroups compiler (bindingGroups compiler) = compiler.
Proof. now destruct compiler. Qed.

Section Groups.
Context `{Collaborators}.

Lemma getBindingGroup_index (compiler : Compiler) (value : AstNode) :
  0 <= (getBindingGroup compiler value).1
  /\ bindingGroups (getBindingGroup compiler value).2
       !! Z.to_nat (getBindingGroup compiler value).1
     = Some (keypath_of value).
Proof.
  rewrite getBindingGroup_step. simpl.
  pose proof (groupIndex_spec (bindingGroups compiler) (keypath_of value))
    as Hspec.
  destruct (groupIndex _ _) as [i g1]. destruct Hspec as (_ & Hin & Hidx).
  destruct (indexOf_from_present _ _ 0 Hin) as [Hrange Hl].
  fold (indexOf g1 (keypath_of value)) in Hrange, Hl.
  rewrite Hidx in Hrange, Hl. simpl. split; [lia|].
  now replace (i - 0) with i in Hl by lia.
Qed.

Lemma getBindingGroup_again (compiler : Compiler) (value value' : AstNode) :
  keypath_of value' = keypath_of value ->
  getBindingGroup (getBindingGroup compiler value).2 value'
  = getBindingGroup compiler value.
Proof.
  intros Hsame. rewrite (getBindingGroup_step _ value'), Hsame.
  rewrite (getBindingGroup_step compiler value). simpl.
  pose proof (groupIndex_spec (bindingGroups compiler) (keypath_of value))
    as Hspec.
  destruct (groupIndex (bindingGroups compiler) (keypath_of value))
    as [i g1].
  destruct Hspec as (_ & Hin & Hidx). simpl.
  rewrite groupIndex_known by assumption. simpl. now rewrite Hidx.
Qed.

(** What a grouped binding does to the compiler and to the block. *)
Lemma munge_group_effects (compiler : Compiler) (block : Block)
    (this : Binding.t) :
  Binding.name this = "group" ->
  let node := Binding.parent this in
  let target := Expression.node (Binding.value this) in
  let index := (getBindingGroup compiler target).1 in
  (munge compiler block this).1.2 = (getBindingGroup compiler target).2
  /\ (munge compiler block this).2
     = {| hydrate := hydrate block ++ [registration index (Element.var node)];
          destroy :=
            destroy block ++ [deregistration index (Element.var node)];
          bindings := bindings block;
          variables := variables block;
          usedNames := usedNames block |}.
Proof.
  intros Hname node target index. unfold munge, getValueFromDom.
  rewrite Hname. fold node target. simpl.
  destruct (String.eqb (Element.name node) "select").
  - unfold index. destruct (getBindingGroup compiler target) as [i c1].
    destruct (dimensions_test "group"); split; reflexivity.
  - pose proof (getBindingGroup_again compiler target target eq_refl)
      as Hagain.
    unfold index. destruct (getBindingGroup compiler target) as [i c1].
    simpl in Hagain.
    destruct (is_text _ "checkbox"); rewrite Hagain;
      destruct (dimensions_test "group"); split; reflexivity.
Qed.

Lemma getValueFromDom_checkbox_group (compiler : Compiler)
    (this : Binding.t) :
  Binding.name this = "group" ->
  is_checkbox (Binding.parent this) ->
  (getValueFromDom compiler (Binding.parent this) this).1
  = "@getBindingGroupValue(#component._bindingGroups["
      +:+ pretty
            (getBindingGroup compiler
               (Expression.node (Binding.value this))).1
      +:+ "])".
Proof.
  intros Hname [Hinput Htype]. unfold getValueFromDom.
  rewrite Hname, Hinput, Htype. simpl.
  now destruct (getBindingGroup _ _).
Qed.

End Groups.

(** C9: two [group] directives on two checkbox inputs whose targets flatten
    to the same keypath receive the same group index.  Each synthesis appends
    one registration statement to the hydrate list of the block and one
    deregistration statement to its destroy list, for its own node, and
    leaves the rest of the block as it was. *)
Theorem munge_group_pair `{Collaborators} (compiler : Compiler)
    (block : Block) (this1 this2 : Binding.t) :
  let node1 := Binding.parent this1 in
  let node2 := Binding.parent this2 in
  let target1 := Expression.node (Binding.value this1) in
  let target2 := Expression.node (Binding.value this2) in
  Binding.name this1 = "group" ->
  Binding.name this2 = "group" ->
  is_checkbox node1 ->
  is_checkbox node2 ->
  keypath_of target1 = keypath_of target2 ->
  let first := munge compiler block this1 in
  let second := munge first.1.2 first.2 this2 in
  exists index : Z,
    0 <= index
    /\ bindingGroups second.1.2 !! Z.to_nat index = Some (keypath_of target1)
    /\ second.1.2 = first.1.2
    /\ (getValueFromDom compiler node1 this1).1
       = "@getBindingGroupValue(#component._bindingGroups["
           +:+ pretty index +:+ "])"
    /\ (getValueFromDom first.1.2 node2 this2).1
       = "@getBindingGroupValue(#component._bindingGroups["
           +:+ pretty index +:+ "])"
    /\ first.2
       = {| hydrate :=
              hydrate block ++ [registration index (Element.var node1)];
            destroy :=
              destroy block ++ [deregistration index (Element.var node1)];
            bindings := bindings block;
            variables := variables block;
            usedNames := usedNames block |}
    /\ second.2
       = {| hydrate :=
              hydrate first.2 ++ [registration index (Element.var node2)];
            destroy :=
              destroy first.2 ++ [deregistration index (Element.var node2)];
            bindings := bindings first.2;
            variables := variables first.2;
            usedNames := usedNames first.2 |}.
Proof.
  intros node1 node2 target1 target2 Hname1 Hname2 Hbox1 Hbox2 Hsame
    first second.
  destruct (munge_group_effects compiler block this1 Hname1)
    as [Hcompiler1 Hblock1].
  destruct (munge_group_effects first.1.2 first.2 this2 Hname2)
    as [Hcompiler2 Hblock2].
  fold first in Hcompiler1, Hblock1. fold second in Hcompiler2, Hblock2.
  fold node1 target1 in Hcompiler1, Hblock1.
  fold node2 target2 in Hcompiler2, Hblock2.
  assert (getBindingGroup first.1.2 target2 = getBindingGroup compiler target1)
    as Hagain.
  { rewrite Hcompiler1. apply getBindingGroup_again. now symmetry. }
  rewrite Hagain in Hcompiler2, Hblock2.
  destruct (getBindingGroup_index compiler target1) as [Hpos Hlook].
  exists (getBindingGroup compiler target1).1.
  split; [exact Hpos|]. split; [now rewrite Hcompiler2|].
  split; [now rewrite Hcompiler2, Hcompiler1|].
  split; [now apply getValueFromDom_checkbox_group|].
  split; [|split; assumption].
  unfold node2. rewrite getValueFromDom_checkbox_group by assumption.
  fold target2. now rewrite Hagain.
Qed.

(** * The properties on examples *)

Example includes_range : includes "range" "daterange" = true.
Proof. reflexivity. Qed.

Example regexp_test_text :
  regexp_test ["radio"; "checkbox"; "range"; "color"] "text" = false.
Proof. reflexivity. Qed.

Example indexOf_absent : indexOf ["a"; "b"] "c" = -1.
Proof. reflexivity. Qed.

Example expandDependencies_selected :
  expandDependencies selecting_compiler ["selected"; "$user"]
  = ["selected"; "$user"; "options"; "total"].
Proof. reflexivity. Qed.

(** [<input type=text bind:value=foo>] *)
Example munge_text_input :
  let result :=
    (@munge sample empty_compiler empty_block
       (bind text_input "value" foo_expression)).1.1 in
  Munged.updateDom result = Some "input.value = ctx.foo;"
  /\ Munged.initialUpdate result = Some "input.value = ctx.foo;"
  /\ Handler.props (Munged.handler result) = ["foo: input.value"]
  /\ Munged.needsLock result = true
  /\ Munged.updateCondition result = None.
Proof. repeat split. Qed.

(** [<div bind:offsetWidth=foo>] *)
Example munge_offsetWidth :
  let result :=
    (@munge sample empty_compiler empty_block
       (bind div "offsetWidth" foo_expression)).1.1 in
  Munged.updateDom result = None
  /\ Munged.initialUpdate result = None
  /\ Handler.props (Munged.handler result) = ["foo: div.offsetWidth"].
Proof. repeat split. Qed.

(** [<video bind:buffered=foo>] *)
Example munge_buffered :
  let result :=
    (@munge sample empty_compiler empty_block
       (bind video "buffered" foo_expression)).1.1 in
  Munged.updateDom result = None
  /\ Handler.props (Munged.handler result)
     = ["foo: @timeRangesToArray(video.buffered)"]
  /\ Munged.isReadOnlyMediaAttribute result = true.
Proof. repeat split. Qed.

Ltac not_listed H :=
  repeat (apply elem_of_cons in H as [H|H]; [discriminate|]);
  now apply elem_of_nil in H.

Lemma needsLock_by_host_alone_fails :
  ~ @needsLock_by_host_alone sample empty_compiler empty_block
      (bind video "duration" foo_expression).
Proof.
  intros [Hset _].
  assert (Munged.needsLock
            (@munge sample empty_compiler empty_block
               (bind video "duration" foo_expression)).1.1 = true) as Hlock.
  { apply Hset. intros [Hname _]. discriminate. }
  vm_compute in Hlock. discriminate.
Qed.

Lemma munge_needsLock_exempt_witness :
  Munged.needsLock
    (@munge sample empty_compiler empty_block
       (bind text_input "value" foo_expression)).1.1 = true
  /\ Munged.needsLock
       (@munge sample empty_compiler empty_block
          (bind checkbox0 "checked" foo_expression)).1.1 = false
  /\ Munged.needsLock
       (@munge sample empty_compiler empty_block
          (bind video "duration" foo_expression)).1.1 = false.
Proof.
  split; [|split].
  - destruct (@munge_needsLock_exempt sample empty_compiler empty_block
                (bind text_input "value" foo_expression)) as (Hset & _ & _).
    apply Hset; [reflexivity|]. right. intros kind Hkind.
    repeat (apply elem_of_cons in Hkind as [->|Hkind]; [reflexivity|]).
    now apply elem_of_nil in Hkind.
  - destruct (@munge_needsLock_exempt sample empty_compiler empty_block
                (bind checkbox0 "checked" foo_expression)) as (_ & Hclear & _).
    apply Hclear; [reflexivity|]. exists "checkbox".
    split; [|reflexivity]. right. left.
  - destruct (@munge_needsLock_exempt sample empty_compiler empty_block
                (bind video "duration" foo_expression)) as (_ & _ & Hro).
    apply Hro. reflexivity.
Defined.

Lemma getBindingGroup_allocate_or_lookup_witness :
  (@getBindingGroup_all sample empty_compiler
     [items_node; Identifier "foo" 0 3; items_node]).1 = [0; 1; 0]
  /\ (@keypath_of sample items_node = @keypath_of sample items_node
      <-> 0 = 0)
  /\ 1 = Z.of_nat (size (list_to_set ["selected.items"] : gset string)).
Proof.
  split; [reflexivity|].
  destruct (@getBindingGroup_allocate_or_lookup sample empty_compiler
              [items_node; Identifier "foo" 0 3; items_node])
    as (_ & Hsame & _ & _ & Hfresh).
  split.
  - apply (Hsame 0%nat 2%nat items_node items_node 0 0); reflexivity.
  - apply (Hfresh eq_refl 1%nat (Identifier "foo" 0 3) 1);
      [reflexivity | reflexivity |].
    intros Hin. not_listed Hin.
Defined.

Lemma getEventHandler_member_excludes_computed_witness :
  @ctx_prop "total"
  ∉ Handler.props
      (@getEventHandler sample (bind text_input "value" items_expression)
         selecting_compiler empty_block "selected" "ctx.selected.items"
         ["selected"; "options"; "total"] "input.value").
Proof.
  destruct (@getEventHandler_member_excludes_computed sample
              (bind text_input "value" items_expression) selecting_compiler
              empty_block "selected" "ctx.selected.items"
              ["selected"; "options"; "total"] "input.value"
              eq_refl eq_refl) as [_ Hnone].
  apply (Hnone {| key := "total" |}). left.
Defined.

Lemma getEventHandler_identifier_witness :
  Handler.storeProps
    (@getEventHandler sample (bind text_input "value" count_expression)
       empty_compiler empty_block "$count" "$.count" ["$count"]
       "input.value") = ["count: input.value"]
  /\ Handler.props
       (@getEventHandler sample (bind text_input "value" foo_expression)
          empty_compiler empty_block "foo" "ctx.foo" ["foo"]
          "input.value") = ["foo: input.value"].
Proof.
  split.
  - destruct (@getEventHandler_identifier sample
                (bind text_input "value" count_expression) empty_compiler
                empty_block "$count" "$.count" ["$count"] "input.value"
                eq_refl eq_refl) as (_ & Hstore & _).
    now destruct (Hstore eq_refl).
  - destruct (@getEventHandler_identifier sample
                (bind text_input "value" foo_expression) empty_compiler
                empty_block "foo" "ctx.foo" ["foo"] "input.value"
                eq_refl eq_refl) as (_ & _ & Hlocal).
    now destruct (Hlocal eq_refl).
Defined.

Lemma munge_read_only_witness :
  Munged.updateDom
    (@munge sample empty_compiler empty_block
       (bind video "duration" foo_expression)).1.1 = None
  /\ Munged.updateDom
       (@munge sample empty_compiler empty_block
          (bind div "offsetWidth" foo_expression)).1.1 = None.
Proof.
  split.
  - apply (@munge_read_only sample empty_compiler empty_block
             (bind video "duration" foo_expression)).
    left. split; [reflexivity | left].
  - apply (@munge_read_only sample empty_compiler empty_block
             (bind div "offsetWidth" foo_expression)).
    right. reflexivity.
Defined.

Lemma munge_media_name_off_media_witness :
  Munged.updateDom
    (@munge sample empty_compiler empty_block
       (bind div "buffered" foo_expression)).1.1 = None
  /\ @isReadOnly sample div (bind div "buffered" foo_expression) = false.
Proof.
  destruct (@munge_media_name_off_media sample empty_compiler empty_block
              (bind div "buffered" foo_expression))
    as (Hdom & _ & Hro & _).
  - reflexivity.
  - right. left.
  - reflexivity.
  - split; assumption.
Defined.

Lemma munge_currentTime_paused_witness :
  Munged.initialUpdate
    (@munge sample empty_compiler empty_block
       (bind video "currentTime" foo_expression)).1.1 = None
  /\ Munged.updateCondition
       (@munge sample empty_compiler empty_block
          (bind video "paused" foo_expression)).1.1
     = Some "video_is_paused !== (video_is_paused = ctx.foo)"
  /\ Munged.updateDom
       (@munge sample empty_compiler empty_block
          (bind video "paused" foo_expression)).1.1
     = Some ("video[video_is_paused ? " +:+ quoted "pause" +:+ " : "
               +:+ quoted "play" +:+ "]();").
Proof.
  split.
  - destruct (@munge_currentTime_paused sample empty_compiler empty_block
                (bind video "currentTime" foo_expression)) as [Hfirst _].
    apply Hfirst. left. reflexivity.
  - destruct (@munge_currentTime_paused sample empty_compiler empty_block
                (bind video "paused" foo_expression)) as [_ Hpaused].
    destruct (Hpaused eq_refl) as (_ & Hcond & _ & Hcall).
    split; [exact Hcond | exact (Hcall eq_refl)].
Defined.

Lemma munge_notNaN_guard_witness :
  Munged.updateCondition
    (@munge sample empty_compiler empty_block
       (bind audio "volume" foo_expression)).1.1
  = Some "!isNaN(ctx.foo)"
  /\ Munged.initialUpdate
       (@munge sample empty_compiler empty_block
          (bind audio "volume" foo_expression)).1.1
     = Some "audio.volume = ctx.foo;"
  /\ Munged.initialUpdate
       (@munge sample empty_compiler empty_block
          (bind audio "currentTime" foo_expression)).1.1 = None.
Proof.
  destruct (@munge_notNaN_guard sample empty_compiler empty_block
              (bind audio "volume" foo_expression))
    as (Hguard & _ & Hkeep).
  destruct (@munge_notNaN_guard sample empty_compiler empty_block
              (bind audio "currentTime" foo_expression))
    as (_ & Hdrop & _).
  split; [apply Hguard; right; reflexivity|].
  split; [|apply Hdrop; reflexivity].
  destruct (Hkeep eq_refl eq_refl) as (_ & _ & Hwrite). exact Hwrite.
Defined.

Lemma munge_expands_dependencies_witness :
  "options"
  ∈ @expandDependencies selecting_compiler
      (Expression.dependencies items_expression).
Proof.
  destruct (@munge_expands_dependencies sample selecting_compiler empty_block
              (bind text_input "value" items_expression))
    as (_ & _ & Hmem).
  apply Hmem. right. exists "selected", ["options"; "total"].
  split; [left|]. split; [reflexivity | left].
Defined.

Lemma munge_group_pair_witness :
  exists index : Z,
    hydrate
      (@munge sample
         (@munge sample empty_compiler empty_block
            (bind checkbox0 "group" items_expression)).1.2
         (@munge sample empty_compiler empty_block
            (bind checkbox0 "group" items_expression)).2
         (bind checkbox1 "group" items_expression)).2
    = [registration index "input0"; registration index "input1"].
Proof.
  destruct (@munge_group_pair sample empty_compiler empty_block
              (bind checkbox0 "group" items_expression)
              (bind checkbox1 "group" items_expression))
    as (index & _ & _ & _ & _ & _ & Hfirst & Hsecond).
  - reflexivity.
  - reflexivity.
  - split; reflexivity.
  - split; reflexivity.
  - reflexivity.
  - exists index. rewrite Hsecond, Hfirst. reflexivity.
Defined.

(** * Further properties *)

(** ** The search behind the lock exemption *)

Lemma prefix_spec (a b : string) :
  String.prefix a b = true <-> exists post, b = a +:+ post.
Proof.
  revert b. induction a as [|c a IH]; intros b.
  - split; [intros _; now exists b | now destruct b].
  - destruct b as [|d b]; simpl.
    + split; [discriminate | intros [post Heq]; discriminate].
    + destruct (ascii_dec c d) as [->|Hne].
      * rewrite IH. split; intros [post Heq]; exists post.
        -- now rewrite Heq.
        -- now injection Heq.
      * split; [discriminate|]. intros [post Heq]. injection Heq as Hc _.
        congruence.
Qed.

Lemma includes_spec (needle hay : string) :
  includes needle hay = true
  <-> exists pre post, hay = pre +:+ needle +:+ post.
Proof.
  induction hay as [|c hay IH].
  - change (includes needle "") with (String.prefix needle "" || false).
    rewrite orb_false_r, prefix_spec. split.
    + intros [post Heq]. now exists "", post.
    + intros (pre & post & Heq). destruct pre; [|discriminate].
      now exists post.
  - change (includes needle (String c hay))
      with (String.prefix needle (String c hay) || includes needle hay).
    rewrite orb_true_iff, prefix_spec, IH. split.
    + intros [[post Heq]|(pre & post & Heq)].
      * now exists "", post.
      * exists (String c pre), post. simpl. now rewrite Heq.
    + intros (pre & post & Heq). destruct pre as [|d pre].
      * left. now exists post.
      * right. injection Heq as _ Heq. now exists pre, post.
Qed.

Lemma regexp_test_spec (alternatives : list string) (s : string) :
  regexp_test alternatives s = true
  <-> exists a pre post, a ∈ alternatives /\ s = pre +:+ a +:+ post.
Proof.
  unfold regexp_test. rewrite existsb_exists. split.
  - intros (a & Hin & Hinc). apply includes_spec in Hinc as (pre & post & Heq).
    exists a, pre, post. split; [now apply list_elem_of_In | assumption].
  - intros (a & pre & post & Hin & Heq). exists a.
    split; [now apply list_elem_of_In|]. apply includes_spec. eauto.
Qed.

(** X1: the change lock is withheld from a directive exactly when it is
    read-only or its host is an input whose static type, read as text,
    has radio, checkbox, range or color somewhere inside it. *)
Theorem munge_needsLock_substring `{Collaborators} (compiler : Compiler)
    (block : Block) (this : Binding.t) :
  let node := Binding.parent this in
  let type := Element.getStaticAttributeValue node "type" in
  Munged.needsLock (munge compiler block this).1.1 = false
  <-> isReadOnly node this = true
      \/ (Element.name node = "input"
          /\ exists kind pre post,
               kind ∈ ["radio"; "checkbox"; "range"; "color"]
               /\ to_js_string type = pre +:+ kind +:+ post).
Proof.
  intros node type. rewrite munge_needsLock. fold node.
  unfold input_needsLock. fold type.
  rewrite andb_false_iff, negb_false_iff, orb_false_iff, !negb_false_iff.
  rewrite String.eqb_eq, regexp_test_spec. tauto.
Qed.

(** X2: an input whose type attribute is absent, dynamic or bare is not
    exempt: its directive gets the lock unless it is read-only. *)
Theorem munge_needsLock_untyped_input `{Collaborators} (compiler : Compiler)
    (block : Block) (this : Binding.t) :
  let node := Binding.parent this in
  Element.getStaticAttributeValue node "type" = SNull
  \/ Element.getStaticAttributeValue node "type" = STrue ->
  Munged.needsLock (munge compiler block this).1.1
  = negb (isReadOnly node this).
Proof.
  intros node Htype. rewrite munge_needsLock. fold node.
  unfold input_needsLock.
  destruct Htype as [-> | ->]; simpl; now rewrite orb_true_r, andb_true_r.
Qed.

Lemma munge_needsLock_untyped_input_witness :
  Munged.needsLock
    (@munge sample empty_compiler empty_block
       (bind (element "input" "input" no_attributes false) "value"
          foo_expression)).1.1 = true.
Proof.
  apply (@munge_needsLock_untyped_input sample empty_compiler empty_block
           (bind (element "input" "input" no_attributes false) "value"
              foo_expression)).
  left. reflexivity.
Defined.

(** ** Which statements are written *)

Lemma getDomUpdater_None (node : Element.t) (this : Binding.t)
    (snippet : string) :
  getDomUpdater node this snippet = None
  <-> Binding.name this ∈ readOnlyMediaAttributes.
Proof.
  split; [|apply getDomUpdater_read_only].
  intros Hnone. destruct (decide (Binding.name this ∈ readOnlyMediaAttributes))
    as [Hin|Hnin]; [assumption|].
  destruct (getDomUpdater_writes node this snippet Hnin) as [stmt Hsome].
  congruence.
Qed.

(** X3: the write statement is absent exactly for dimension names and for
    the read-only media names duration, buffered, seekable and played,
    whatever the host; the first-render write is absent exactly when the
    write statement is, or the name is currentTime or paused; and when it is
    present it is the write statement itself. *)
Theorem munge_writes `{Collaborators} (compiler : Compiler) (block : Block)
    (this : Binding.t) :
  let result := (munge compiler block this).1.1 in
  (Munged.updateDom result = None
   <-> dimensions_test (Binding.name this) = true
       \/ Binding.name this ∈ ["duration"; "buffered"; "seekable"; "played"])
  /\ (Munged.initialUpdate result = None
      <-> Munged.updateDom result = None
          \/ Binding.name this = "currentTime"
          \/ Binding.name this = "paused")
  /\ (Munged.initialUpdate result = None
      \/ Munged.initialUpdate result = Munged.updateDom result).
Proof.
  intros result. unfold result.
  rewrite munge_updateDom, munge_initialUpdate.
  fold readOnlyMediaAttributes.
  pose proof (getDomUpdater_None (Binding.parent this) this
                (Expression.snippet (Binding.value this))) as Hnone.
  pose proof (read_only_name_cases (Binding.name this)) as Hcases.
  destruct (dimensions_test (Binding.name this));
    [intuition (try discriminate; auto)|].
  destruct (String.eqb_spec (Binding.name this) "paused") as [Hp|Hp];
    [intuition (try discriminate; try congruence; auto)|].
  destruct (String.eqb_spec (Binding.name this) "currentTime") as [Hc|Hc];
    rewrite ?Hnone; intuition (try discriminate; try congruence; auto).
Qed.

(** X4: an update condition is produced exactly for the names currentTime,
    volume and paused. *)
Theorem munge_updateCondition_names `{Collaborators} (compiler : Compiler)
    (block : Block) (this : Binding.t) :
  is_Some (Munged.updateCondition (munge compiler block this).1.1)
  <-> Binding.name this ∈ ["currentTime"; "volume"; "paused"].
Proof.
  rewrite munge_updateCondition.
  rewrite !elem_of_cons, elem_of_nil.
  destruct (String.eqb_spec (Binding.name this) "paused") as [Hp|Hp].
  { split; [auto | eauto]. }
  destruct (String.eqb_spec (Binding.name this) "currentTime") as [Hc|Hc].
  { simpl. split; [auto | eauto]. }
  destruct (String.eqb_spec (Binding.name this) "volume") as [Hv|Hv].
  { simpl. split; [auto | eauto]. }
  simpl. split; [intros [x Hx]; discriminate | tauto].
Qed.

(** ** The entries of the event handler *)

Lemma store_prop_inj (a b : string) : store_prop a = store_prop b -> a = b.
Proof.
  unfold store_prop. intros Heq.
  assert (String.length a = String.length b) as Hlen.
  { apply (f_equal String.length) in Heq.
    rewrite !length_append in Heq. simpl in Heq. lia. }
  now destruct (append_same_length _ _ _ _ Hlen Heq).
Qed.

Lemma first_is_sigil_spec (s : string) :
  first_is_sigil s = true <-> s = String "$" (slice1 s).
Proof.
  destruct s as [|c s]; simpl.
  - split; discriminate.
  - rewrite Ascii.eqb_eq. split; [now intros -> | now intros [= ->]].
Qed.

Lemma store_names_elem (dependencies : list string) (s : string) :
  s ∈ map slice1 (List.filter first_is_sigil dependencies)
  <-> String "$" s ∈ dependencies.
Proof.
  rewrite list_elem_of_fmap. split.
  - intros (d & -> & Hin). apply list_elem_of_In, filter_In in Hin as [Hin Hd].
    apply first_is_sigil_spec in Hd. rewrite <- Hd. now apply list_elem_of_In.
  - intros Hin. exists (String "$" s). split; [reflexivity|].
    apply list_elem_of_In, filter_In. split; [now apply list_elem_of_In|].
    reflexivity.
Qed.

Lemma filter_nonempty {A : Type} (f : A -> bool) (l : list A) :
  (0 <? length (List.filter f l))%nat = existsb f l.
Proof.
  induction l as [|x l IH]; simpl; [reflexivity|].
  destruct (f x); simpl; [reflexivity | exact IH].
Qed.

(** X5: the three shapes of the handler.  It uses the context exactly when
    the binding is contextual, and the state exactly when the binding is
    contextual or its target a member expression; only in those two shapes
    can it use the store, which it does exactly when some dependency is
    store-prefixed; and it has a mutation statement exactly in those two
    shapes.  A bare store-prefixed identifier therefore yields a store entry
    from a handler that reports no use of the store. *)
Theorem getEventHandler_shape `{Collaborators} (binding : Binding.t)
    (compiler : Compiler) (block : Block) (name snippet : string)
    (dependencies : list string) (value : string) :
  let handler :=
    getEventHandler binding compiler block name snippet dependencies value in
  let member :=
    is_MemberExpression (Expression.node (Binding.value binding)) in
  Handler.usesContext handler = Binding.isContextual binding
  /\ Handler.usesState handler = Binding.isContextual binding || member
  /\ Handler.usesStore handler
     = (Binding.isContextual binding || member)
       && existsb first_is_sigil dependencies
  /\ (Handler.mutation handler = None
      <-> Binding.isContextual binding = false /\ member = false)
  /\ (Binding.isContextual binding = false -> member = false ->
      first_is_sigil name = true ->
      Handler.usesStore handler = false
      /\ Handler.storeProps handler <> []).
Proof.
  intros handler member. unfold handler, getEventHandler. fold member.
  destruct (Binding.isContextual binding), member; simpl;
    rewrite ?length_map, ?filter_nonempty.
  1-3: repeat split; try discriminate; intros [? ?]; discriminate.
  destruct (first_is_sigil name); simpl;
    repeat split; auto; try discriminate.
Qed.

Lemma getEventHandler_shape_witness :
  Handler.usesStore
    (@getEventHandler sample (bind text_input "value" count_expression)
       empty_compiler empty_block "$count" "$.count" ["$count"]
       "input.value") = false
  /\ Handler.storeProps
       (@getEventHandler sample (bind text_input "value" count_expression)
          empty_compiler empty_block "$count" "$.count" ["$count"]
          "input.value") <> [].
Proof.
  destruct (@getEventHandler_shape sample
              (bind text_input "value" count_expression) empty_compiler
              empty_block "$count" "$.count" ["$count"] "input.value")
    as (_ & _ & _ & _ & Hbare).
  exact (Hbare eq_refl eq_refl eq_refl).
Defined.

Lemma getEventHandler_entries_facts `{Collaborators} (binding : Binding.t)
    (compiler : Compiler) (block : Block) (name snippet : string)
    (dependencies : list string) (value : string) :
  Binding.isContextual binding = true
  \/ is_MemberExpression (Expression.node (Binding.value binding)) = true ->
  let handler :=
    getEventHandler binding compiler block name snippet dependencies value in
  (forall s, store_prop s ∈ Handler.storeProps handler
             <-> String "$" s ∈ dependencies)
  /\ (forall d, ctx_prop d ∈ Handler.props handler
                <-> d ∈ dependencies
                    /\ first_is_sigil d = false
                    /\ (Binding.isContextual binding = false ->
                        is_computation compiler d = false)).
Proof.
  intros Hshape handler.
  assert (forall l s, store_prop s ∈ map store_prop l <-> s ∈ l) as Hstore.
  { intros l s. rewrite list_elem_of_fmap. split.
    - intros (x & Heq & Hin). apply store_prop_inj in Heq. now subst.
    - intros Hin. now exists s. }
  assert (forall l d, ctx_prop d ∈ map ctx_prop l <-> d ∈ l) as Hctx.
  { intros l d. rewrite list_elem_of_fmap. split.
    - intros (x & Heq & Hin). apply ctx_prop_inj in Heq. now subst.
    - intros Hin. now exists d. }
  unfold handler, getEventHandler.
  destruct (Binding.isContextual binding) eqn:Hc.
  - simpl. split.
    + intros s. now rewrite Hstore, store_names_elem.
    + intros d. rewrite Hctx, list_elem_of_In, filter_In, negb_true_iff.
      rewrite <- list_elem_of_In. intuition discriminate.
  - destruct Hshape as [Hc'|Hm]; [discriminate|]. rewrite Hm. simpl. split.
    + intros s. now rewrite Hstore, store_names_elem.
    + intros d.
      rewrite Hctx, list_elem_of_In, !filter_In, !negb_true_iff.
      rewrite <- list_elem_of_In. tauto.
Qed.

(** X6: in the contextual and member-expression shapes the entries account
    for the dependencies one by one.  A name is among the store entries
    exactly when the name with the sigil in front is a dependency.  A name is
    among the props exactly when it is a dependency without the sigil and,
    for a binding that is not contextual, no computation has it as key: a
    contextual binding lets computed names through. *)
Theorem getEventHandler_entries `{Collaborators} (binding : Binding.t)
    (compiler : Compiler) (block : Block) (name snippet : string)
    (dependencies : list string) (value : string) :
  Binding.isContextual binding = true
  \/ is_MemberExpression (Expression.node (Binding.value binding)) = true ->
  let handler :=
    getEventHandler binding compiler block name snippet dependencies value in
  (forall s, store_prop s ∈ Handler.storeProps handler
             <-> String "$" s ∈ dependencies)
  /\ (forall d, ctx_prop d ∈ Handler.props handler
                <-> d ∈ dependencies
                    /\ first_is_sigil d = false
                    /\ (Binding.isContextual binding = false ->
                        is_computation compiler d = false)).
Proof.
  exact (getEventHandler_entries_facts binding compiler block name snippet
           dependencies value).
Qed.

Lemma getEventHandler_entries_witness :
  @ctx_prop "options"
  ∈ Handler.props
      (@getEventHandler sample (bind text_input "value" items_expression)
         selecting_compiler empty_block "selected" "ctx.selected.items"
         ["selected"; "options"; "total"; "$user"] "input.value")
  /\ @store_prop "user"
     ∈ Handler.storeProps
         (@getEventHandler sample (bind text_input "value" items_expression)
            selecting_compiler empty_block "selected" "ctx.selected.items"
            ["selected"; "options"; "total"; "$user"] "input.value").
Proof.
  destruct (@getEventHandler_entries sample
              (bind text_input "value" items_expression) selecting_compiler
              empty_block "selected" "ctx.selected.items"
              ["selected"; "options"; "total"; "$user"] "input.value"
              (or_intror eq_refl)) as [Hstore Hprops].
  split.
  - apply Hprops. split; [right; left|]. split; reflexivity.
  - apply Hstore. right. right. right. left.
Defined.

(** X7: what each shape of the handler never looks at.  A contextual handler
    depends neither on the compiler nor on the snippet; a member-expression
    handler outside any contextual scope depends neither on the block nor on
    the name of the target object; the handler of a bare identifier depends
    on nothing but the name and the value read: the dependencies, base or
    indirect, play no part in it. *)
Theorem getEventHandler_ignores `{Collaborators} (binding : Binding.t)
    (compiler compiler' : Compiler) (block block' : Block)
    (name name' snippet snippet' : string)
    (dependencies dependencies' : list string) (value : string) :
  let member :=
    is_MemberExpression (Expression.node (Binding.value binding)) in
  (Binding.isContextual binding = true ->
   getEventHandler binding compiler block name snippet dependencies value
   = getEventHandler binding compiler' block name snippet' dependencies value)
  /\ (Binding.isContextual binding = false -> member = true ->
      getEventHandler binding compiler block name snippet dependencies value
      = getEventHandler binding compiler block' name' snippet dependencies
          value)
  /\ (Binding.isContextual binding = false -> member = false ->
      getEventHandler binding compiler block name snippet dependencies value
      = getEventHandler binding compiler' block' name snippet' dependencies'
          value).
Proof.
  intros member. unfold getEventHandler. fold member.
  repeat split.
  - now intros ->.
  - now intros -> ->.
  - now intros -> ->.
Qed.

Lemma getEventHandler_ignores_witness :
  @getEventHandler sample (bind text_input "value" foo_expression)
    empty_compiler empty_block "foo" "ctx.foo" ["foo"] "input.value"
  = @getEventHandler sample (bind text_input "value" foo_expression)
      selecting_compiler empty_block "foo" "" ["foo"; "options"] "input.value".
Proof.
  destruct (@getEventHandler_ignores sample
              (bind text_input "value" foo_expression)
              empty_compiler selecting_compiler empty_block empty_block
              "foo" "foo" "ctx.foo" "" ["foo"] ["foo"; "options"]
              "input.value") as (_ & _ & Hbare).
  exact (Hbare eq_refl eq_refl).
Defined.

(** ** One call of the registry *)

Lemma indexOf_from_first (l : list string) (x : string) (i : Z) (j : nat) :
  x ∈ l ->
  (j < Z.to_nat (indexOf_from i l x - i))%nat ->
  l !! j <> Some x.
Proof.
  revert i j. induction l as [|y l IH]; intros i j Hin Hj.
  - now apply elem_of_nil in Hin.
  - simpl in Hj. destruct (String.eqb_spec y x) as [->|Hne].
    + replace (i - i) with 0 in Hj by lia. simpl in Hj. lia.
    + apply elem_of_cons in Hin as [Heq|Hin]; [congruence|].
      destruct j as [|j]; simpl; [congruence|].
      apply (IH (i + 1)); [assumption|].
      destruct (indexOf_from_present l x (i + 1) Hin) as [Hrange _]. lia.
Qed.

Lemma getBindingGroup_facts `{Collaborators} (compiler : Compiler)
    (value : AstNode) :
  let index := (getBindingGroup compiler value).1 in
  let compiler' := (getBindingGroup compiler value).2 in
  let keypath := keypath_of value in
  0 <= index < Z.of_nat (length (bindingGroups compiler'))
  /\ bindingGroups compiler' !! Z.to_nat index = Some keypath
  /\ (forall j, (j < Z.to_nat index)%nat ->
        bindingGroups compiler' !! j <> Some keypath)
  /\ (keypath ∈ bindingGroups compiler -> compiler' = compiler)
  /\ (keypath ∉ bindingGroups compiler ->
      bindingGroups compiler' = bindingGroups compiler ++ [keypath]
      /\ index = Z.of_nat (length (bindingGroups compiler)))
  /\ getBindingGroup compiler' value = (index, compiler')
  /\ (NoDup (bindingGroups compiler) -> NoDup (bindingGroups compiler'))
  /\ indirectDependencies compiler' = indirectDependencies compiler
  /\ computations compiler' = computations compiler.
Proof.
  intros index compiler' keypath.
  pose proof (getBindingGroup_again compiler value value eq_refl) as Hagain.
  destruct (getBindingGroup_index compiler value) as [Hpos Hlook].
  unfold index, compiler', keypath. clear index compiler' keypath.
  destruct (decide (keypath_of value ∈ bindingGroups compiler)) as [Hin|Hnin].
  - assert (getBindingGroup compiler value
            = (indexOf (bindingGroups compiler) (keypath_of value), compiler))
      as Heq.
    { rewrite getBindingGroup_step, groupIndex_known by assumption. simpl.
      now rewrite set_bindingGroups_same. }
    rewrite Heq in *. simpl in *.
    destruct (indexOf_from_present _ _ 0 Hin) as [Hrange _].
    fold (indexOf (bindingGroups compiler) (keypath_of value)) in Hrange.
    repeat apply conj; trivial; try lia; try contradiction.
    intros j Hj. apply (indexOf_from_first _ _ 0); [assumption|].
    unfold indexOf in Hj. now replace (indexOf_from 0 (bindingGroups compiler)
      (keypath_of value) - 0) with (indexOf_from 0 (bindingGroups compiler)
      (keypath_of value)) by lia.
  - assert (getBindingGroup compiler value
            = (Z.of_nat (length (bindingGroups compiler)),
               set_bindingGroups compiler
                 (bindingGroups compiler ++ [keypath_of value]))) as Heq.
    { now rewrite getBindingGroup_step, groupIndex_new by assumption. }
    rewrite Heq in *. simpl in *.
    repeat apply conj; trivial; try lia; try contradiction.
    + rewrite length_app. simpl. lia.
    + intros j Hj Hj'. rewrite Nat2Z.id in Hj.
      rewrite lookup_app_l in Hj' by assumption.
      apply Hnin. eapply list_elem_of_lookup_2. eassumption.
    + intros _. split; reflexivity.
    + intros Hnd. apply NoDup_app. repeat split; trivial.
      * intros x Hx Hx'. apply list_elem_of_singleton in Hx'. now subst.
      * apply NoDup_singleton.
Qed.

(** X8: one call of [getBindingGroup].  The index it returns is a position
    of the registry it leaves, the first one holding the keypath.  A keypath
    already filed leaves the compiler as it was; a new one is put at the end
    and receives the former length.  Calling again for the same target
    changes nothing and returns the same index, a registry without
    repetition stays so, and nothing but the registry is touched. *)
Theorem getBindingGroup_once `{Collaborators} (compiler : Compiler)
    (value : AstNode) :
  let index := (getBindingGroup compiler value).1 in
  let compiler' := (getBindingGroup compiler value).2 in
  let keypath := keypath_of value in
  0 <= index < Z.of_nat (length (bindingGroups compiler'))
  /\ bindingGroups compiler' !! Z.to_nat index = Some keypath
  /\ (forall j, (j < Z.to_nat index)%nat ->
        bindingGroups compiler' !! j <> Some keypath)
  /\ (keypath ∈ bindingGroups compiler -> compiler' = compiler)
  /\ (keypath ∉ bindingGroups compiler ->
      bindingGroups compiler' = bindingGroups compiler ++ [keypath]
      /\ index = Z.of_nat (length (bindingGroups compiler)))
  /\ getBindingGroup compiler' value = (index, compiler')
  /\ (NoDup (bindingGroups compiler) -> NoDup (bindingGroups compiler'))
  /\ indirectDependencies compiler' = indirectDependencies compiler
  /\ computations compiler' = computations compiler.
Proof. exact (getBindingGroup_facts compiler value). Qed.

Lemma getBindingGroup_once_witness :
  bindingGroups
    (@getBindingGroup sample empty_compiler items_node).2
  = ["selected.items"]
  /\ (@getBindingGroup sample empty_compiler items_node).1 = 0
  /\ (@getBindingGroup sample
        (@getBindingGroup sample empty_compiler items_node).2 items_node).2
     = (@getBindingGroup sample empty_compiler items_node).2.
Proof.
  destruct (@getBindingGroup_once sample empty_compiler items_node)
    as (_ & _ & _ & _ & Hnew & _).
  destruct (@getBindingGroup_once sample
              (@getBindingGroup sample empty_compiler items_node).2
              items_node) as (_ & _ & _ & Hknown & _).
  destruct Hnew as [Hgroups Hindex]; [apply not_elem_of_nil|].
  split; [exact Hgroups|]. split; [exact Hindex|].
  apply Hknown. left.
Defined.

(** ** What a synthesis does to the compiler and to the block *)

Lemma getValueFromDom_compiler `{Collaborators} (compiler : Compiler)
    (node : Element.t) (binding : Binding.t) :
  (getValueFromDom compiler node binding).2
  = if negb (String.eqb (Element.name node) "select")
       && String.eqb (Binding.name binding) "group"
    then (getBindingGroup compiler
            (Expression.node (Binding.value binding))).2
    else compiler.
Proof.
  unfold getValueFromDom.
  destruct (String.eqb (Element.name node) "select"); simpl; [reflexivity|].
  destruct (String.eqb (Binding.name binding) "group").
  { destruct (getBindingGroup _ _).
    now destruct (is_text (Element.getStaticAttributeValue node "type")
                    "checkbox"). }
  destruct (is_text (Element.getStaticAttributeValue node "type") "range"
            || is_text (Element.getStaticAttributeValue node "type") "number");
    [reflexivity|].
  now destruct (String.eqb (Binding.name binding) "buffered"
                || String.eqb (Binding.name binding) "seekable"
                || String.eqb (Binding.name binding) "played").
Qed.

Lemma munge_compiler `{Collaborators} (compiler : Compiler) (block : Block)
    (this : Binding.t) :
  (munge compiler block this).1.2
  = if String.eqb (Binding.name this) "group"
    then (getBindingGroup compiler
            (Expression.node (Binding.value this))).2
    else compiler.
Proof.
  destruct (String.eqb_spec (Binding.name this) "group") as [Hgroup|Hother].
  - now destruct (munge_group_effects compiler block this Hgroup).
  - pose proof (getValueFromDom_compiler compiler (Binding.parent this) this)
      as Hreader.
    apply String.eqb_neq in Hother. rewrite Hother, andb_false_r in Hreader.
    unfold munge. rewrite Hother.
    destruct (getValueFromDom compiler (Binding.parent this) this)
      as [valueFromDom compiler1].
    simpl in Hreader. subst compiler1.
    destruct (_ || _); destruct (String.eqb (Binding.name this) "paused");
      try destruct (getUniqueName _ _); now destruct (dimensions_test _).
Qed.

Lemma munge_block_other `{Collaborators} (compiler : Compiler)
    (block : Block) (this : Binding.t) :
  Binding.name this <> "group" ->
  (munge compiler block this).2
  = if String.eqb (Binding.name this) "paused"
    then addVariable
           (getUniqueName block
              (Element.var (Binding.parent this) +:+ "_is_paused")).2
           (paused_cell block this) "true"
    else block.
Proof.
  intros Hother. apply String.eqb_neq in Hother.
  unfold munge, paused_cell. rewrite Hother.
  destruct (getValueFromDom compiler (Binding.parent this) this)
    as [valueFromDom compiler1].
  destruct (_ || _); destruct (String.eqb (Binding.name this) "paused");
    try destruct (getUniqueName _ _); now destruct (dimensions_test _).
Qed.

(** X9: a synthesis never touches the indirect dependencies or the
    computations of the compiler, and never removes or moves an entry of the
    registry: the registry it leaves extends the one it found by at most one
    keypath and has no repetition if the former had none.  Only a directive
    named group can change the compiler at all, and after it the keypath of
    its target is filed. *)
Theorem munge_compiler_effect `{Collaborators} (compiler : Compiler)
    (block : Block) (this : Binding.t) :
  let compiler' := (munge compiler block this).1.2 in
  indirectDependencies compiler' = indirectDependencies compiler
  /\ computations compiler' = computations compiler
  /\ bindingGroups compiler `prefix_of` bindingGroups compiler'
  /\ (length (bindingGroups compiler')
      <= S (length (bindingGroups compiler)))%nat
  /\ (NoDup (bindingGroups compiler) -> NoDup (bindingGroups compiler'))
  /\ (Binding.name this <> "group" -> compiler' = compiler)
  /\ (Binding.name this = "group" ->
      keypath_of (Expression.node (Binding.value this))
      ∈ bindingGroups compiler').
Proof.
  intros compiler'. unfold compiler'. rewrite munge_compiler.
  destruct (String.eqb_spec (Binding.name this) "group") as [Hgroup|Hother].
  - destruct (getBindingGroup_facts compiler
                (Expression.node (Binding.value this)))
      as (_ & Hlook & _ & Hknown & Hnew & _ & Hnd & Hind & Hcomp).
    repeat apply conj; trivial; try contradiction.
    + destruct (decide (keypath_of (Expression.node (Binding.value this))
                          ∈ bindingGroups compiler)) as [Hin|Hnin].
      * now rewrite (Hknown Hin).
      * destruct (Hnew Hnin) as [-> _]. now apply prefix_app_r.
    + destruct (decide (keypath_of (Expression.node (Binding.value this))
                          ∈ bindingGroups compiler)) as [Hin|Hnin].
      * rewrite (Hknown Hin). lia.
      * destruct (Hnew Hnin) as [-> _]. rewrite length_app. simpl. lia.
    + intros _. eapply list_elem_of_lookup_2. eassumption.
  - repeat apply conj; trivial; try lia; try contradiction.
Qed.

Lemma munge_compiler_effect_witness :
  (@munge sample selecting_compiler empty_block
     (bind video "paused" foo_expression)).1.2 = selecting_compiler
  /\ "selected.items"
     ∈ bindingGroups
         (@munge sample selecting_compiler empty_block
            (bind checkbox0 "group" items_expression)).1.2.
Proof.
  destruct (@munge_compiler_effect sample selecting_compiler empty_block
              (bind video "paused" foo_expression))
    as (_ & _ & _ & _ & _ & Hsame & _).
  destruct (@munge_compiler_effect sample selecting_compiler empty_block
              (bind checkbox0 "group" items_expression))
    as (_ & _ & _ & _ & _ & _ & Hfiled).
  split; [apply Hsame; discriminate | apply Hfiled; reflexivity].
Defined.

(** X10: a synthesis leaves the block as it found it unless the directive
    is named group or paused.  For paused it allocates the private cell with
    [getUniqueName], seeded with the variable of the node followed by
    _is_paused, and declares it with the initial value true; the compiler is
    then left unchanged. *)
Theorem munge_block_effect `{Collaborators} (compiler : Compiler)
    (block : Block) (this : Binding.t) :
  (Binding.name this <> "group" -> Binding.name this <> "paused" ->
   (munge compiler block this).2 = block)
  /\ (Binding.name this = "paused" ->
      (munge compiler block this).2
      = addVariable
          (getUniqueName block
             (Element.var (Binding.parent this) +:+ "_is_paused")).2
          (paused_cell block this) "true"
      /\ (munge compiler block this).1.2 = compiler).
Proof.
  split.
  - intros Hgroup Hpaused. rewrite munge_block_other by assumption.
    apply String.eqb_neq in Hpaused. now rewrite Hpaused.
  - intros Hpaused.
    assert (Binding.name this <> "group") as Hgroup
      by (rewrite Hpaused; discriminate).
    rewrite munge_block_other, munge_compiler by assumption.
    apply String.eqb_neq in Hgroup. now rewrite Hgroup, Hpaused.
Qed.

Lemma munge_block_effect_witness :
  (@munge sample empty_compiler empty_block
     (bind text_input "value" foo_expression)).2 = empty_block
  /\ variables
       (@munge sample empty_compiler empty_block
          (bind video "paused" foo_expression)).2
     = [("video_is_paused", "true")].
Proof.
  destruct (@munge_block_effect sample empty_compiler empty_block
              (bind text_input "value" foo_expression)) as [Hframe _].
  destruct (@munge_block_effect sample empty_compiler empty_block
              (bind video "paused" foo_expression)) as [_ Hpaused].
  split; [apply Hframe; discriminate|].
  destruct (Hpaused eq_refl) as [-> _]. reflexivity.
Defined.

(** X11: a directive named group on a select element.  The reader and the
    writer are those of the select and do not mention the group, and the
    reader leaves the registry alone; the synthesis nevertheless files the
    keypath and appends the registration and deregistration statements of
    the node to the block, as for any other host. *)
Theorem munge_group_on_select `{Collaborators} (compiler : Compiler)
    (block : Block) (this : Binding.t) :
  let node := Binding.parent this in
  let target := Expression.node (Binding.value this) in
  let snippet := Expression.snippet (Binding.value this) in
  let index := (getBindingGroup compiler target).1 in
  Binding.name this = "group" ->
  Element.name node = "select" ->
  getValueFromDom compiler node this
  = (if is_true_value (Element.getStaticAttributeValue node "multiple")
     then "@selectMultipleValue(" +:+ Element.var node +:+ ")"
     else "@selectValue(" +:+ Element.var node +:+ ")", compiler)
  /\ getDomUpdater node this snippet
     = Some (if is_true_value (Element.getStaticAttributeValue node "multiple")
             then "@selectOptions(" +:+ Element.var node +:+ ", "
                    +:+ snippet +:+ ")"
             else "@selectOption(" +:+ Element.var node +:+ ", "
                    +:+ snippet +:+ ")")
  /\ bindingGroups (munge compiler block this).1.2 !! Z.to_nat index
     = Some (keypath_of target)
  /\ (munge compiler block this).2
     = {| hydrate := hydrate block ++ [registration index (Element.var node)];
          destroy :=
            destroy block ++ [deregistration index (Element.var node)];
          bindings := bindings block;
          variables := variables block;
          usedNames := usedNames block |}.
Proof.
  intros node target snippet index Hgroup Hselect.
  destruct (munge_group_effects compiler block this Hgroup)
    as [Hcompiler Hblock].
  fold node target index in Hcompiler, Hblock.
  destruct (getBindingGroup_index compiler target) as [_ Hlook].
  repeat apply conj.
  - unfold getValueFromDom. now rewrite Hselect.
  - unfold getDomUpdater, isReadOnlyMediaAttribute.
    now rewrite Hgroup, Hselect.
  - now rewrite Hcompiler.
  - exact Hblock.
Qed.

Lemma munge_group_on_select_witness :
  hydrate
    (@munge sample empty_compiler empty_block
       (bind (element "select" "select" no_attributes false) "group"
          items_expression)).2
  = ["#component._bindingGroups[0].push(select);"]
  /\ (@getValueFromDom sample empty_compiler
        (element "select" "select" no_attributes false)
        (bind (element "select" "select" no_attributes false) "group"
           items_expression))
     = ("@selectValue(select)", empty_compiler).
Proof.
  destruct (@munge_group_on_select sample empty_compiler empty_block
              (bind (element "select" "select" no_attributes false) "group"
                 items_expression) eq_refl eq_refl)
    as (Hreader & _ & _ & Hblock).
  split; [now rewrite Hblock | exact Hreader].
Defined.

(** ** The reader and the registry *)

(** X12: the reader changes the compiler only for a directive named group
    on a host that is no select; it then files the keypath of the target
    even when the host is no checkbox and the text it returns, the value of
    the node, does not mention the group.  On an input of type range or
    number every other directive is read through the number coercion,
    whatever its name, the time-range attributes included. *)
Theorem getValueFromDom_effects `{Collaborators} (compiler : Compiler)
    (node : Element.t) (binding : Binding.t) :
  let type := Element.getStaticAttributeValue node "type" in
  let target := Expression.node (Binding.value binding) in
  (Binding.name binding <> "group" \/ Element.name node = "select" ->
   (getValueFromDom compiler node binding).2 = compiler)
  /\ (Binding.name binding = "group" -> Element.name node <> "select" ->
      (getValueFromDom compiler node binding).2
      = (getBindingGroup compiler target).2
      /\ (is_text type "checkbox" = false ->
          (getValueFromDom compiler node binding).1
          = Element.var node +:+ ".__value"))
  /\ (Binding.name binding <> "group" -> Element.name node <> "select" ->
      is_text type "range" = true \/ is_text type "number" = true ->
      (getValueFromDom compiler node binding).1
      = "@toNumber(" +:+ Element.var node +:+ "." +:+ Binding.name binding
          +:+ ")").
Proof.
  intros type target. repeat apply conj.
  - intros Hcase. rewrite getValueFromDom_compiler.
    destruct Hcase as [Hname|Hselect].
    + apply String.eqb_neq in Hname. now rewrite Hname, andb_false_r.
    + now rewrite Hselect.
  - intros Hgroup Hselect. split.
    + rewrite getValueFromDom_compiler. apply String.eqb_neq in Hselect.
      now rewrite Hselect, Hgroup.
    + intros Hbox. unfold getValueFromDom. apply String.eqb_neq in Hselect.
      rewrite Hselect, Hgroup. simpl. fold type target. rewrite Hbox.
      now destruct (getBindingGroup compiler target).
  - intros Hname Hselect Htype. unfold getValueFromDom.
    apply String.eqb_neq in Hname, Hselect. rewrite Hselect, Hname.
    fold type. now destruct Htype as [-> | ->]; rewrite ?orb_true_r.
Qed.

Lemma getValueFromDom_effects_witness :
  (@getValueFromDom sample empty_compiler
     (element "input" "input" (typed "radio") false)
     (bind (element "input" "input" (typed "radio") false) "group"
        items_expression)).1 = "input.__value"
  /\ bindingGroups
       (@getValueFromDom sample empty_compiler
          (element "input" "input" (typed "radio") false)
          (bind (element "input" "input" (typed "radio") false) "group"
             items_expression)).2 = ["selected.items"]
  /\ (@getValueFromDom sample empty_compiler
        (element "input" "input" (typed "range") false)
        (bind (element "input" "input" (typed "range") false) "buffered"
           foo_expression)).1
     = "@toNumber(input.buffered)".
Proof.
  destruct (@getValueFromDom_effects sample empty_compiler
              (element "input" "input" (typed "radio") false)
              (bind (element "input" "input" (typed "radio") false) "group"
                 items_expression)) as (_ & Hgroup & _).
  destruct (@getValueFromDom_effects sample empty_compiler
              (element "input" "input" (typed "range") false)
              (bind (element "input" "input" (typed "range") false)
                 "buffered" foo_expression)) as (_ & _ & Hnumber).
  destruct Hgroup as [Hcompiler Htext]; [reflexivity | discriminate |].
  split; [exact (Htext eq_refl)|].
  split; [now rewrite Hcompiler|].
  apply Hnumber; [discriminate | discriminate | now left].
Defined.

(** ** The order of the dependency set *)

Lemma Set_add_all_prefix (l s : list string) :
  s `prefix_of` fold_left Set_add l s.
Proof.
  revert s. induction l as [|x l IH]; intros s; simpl; [reflexivity|].
  transitivity (Set_add s x); [|apply IH].
  unfold Set_add. destruct (Set_has s x); [reflexivity | now apply prefix_app_r].
Qed.

Lemma Set_add_all_distinct (l s : list string) :
  NoDup (s ++ l) -> fold_left Set_add l s = s ++ l.
Proof.
  revert s. induction l as [|x l IH]; intros s Hnd; simpl.
  - now rewrite app_nil_r.
  - assert (x ∉ s) as Hx.
    { apply NoDup_app in Hnd as (_ & Hdisj & _). intros Hin.
      apply (Hdisj x Hin). left. }
    unfold Set_add at 2. apply Set_has_not_elem in Hx. rewrite Hx.
    rewrite IH; rewrite <- app_assoc; [reflexivity | exact Hnd].
Qed.

Lemma expand_fold_prefix (compiler : Compiler) (base acc : list string) :
  acc `prefix_of`
    fold_left
      (fun dependencies prop =>
         match indirectDependencies compiler !! prop with
         | Some indirect => fold_left Set_add indirect dependencies
         | None => dependencies
         end) base acc.
Proof.
  revert acc. induction base as [|p base IH]; intros acc; simpl;
    [reflexivity|].
  etransitivity; [|apply IH].
  destruct (indirectDependencies compiler !! p);
    [apply Set_add_all_prefix | reflexivity].
Qed.

Lemma expand_fold_none (compiler : Compiler) (base acc : list string) :
  (forall p, p ∈ base -> indirectDependencies compiler !! p = None) ->
  fold_left
    (fun dependencies prop =>
       match indirectDependencies compiler !! prop with
       | Some indirect => fold_left Set_add indirect dependencies
       | None => dependencies
       end) base acc = acc.
Proof.
  revert acc. induction base as [|p base IH]; intros acc Hnone; simpl;
    [reflexivity|].
  rewrite (Hnone p) by left. apply IH. intros q Hq. apply Hnone. now right.
Qed.

(** X13: the expanded dependency set keeps the dependencies of the target
    in front, in their order and each once, and puts the indirect ones after
    them; when none of the dependencies has indirect dependencies registered
    it is the set of the dependencies themselves. *)
Theorem expandDependencies_order (compiler : Compiler) (base : list string) :
  Set_new base `prefix_of` expandDependencies compiler base
  /\ (NoDup base -> base `prefix_of` expandDependencies compiler base)
  /\ ((forall p, p ∈ base -> indirectDependencies compiler !! p = None) ->
      expandDependencies compiler base = Set_new base)
  /\ ((forall p, p ∈ base -> indirectDependencies compiler !! p = None) ->
      NoDup base -> expandDependencies compiler base = base).
Proof.
  assert (NoDup base -> Set_new base = base) as Hnew.
  { intros Hnd. unfold Set_new. now rewrite Set_add_all_distinct. }
  repeat apply conj.
  - apply expand_fold_prefix.
  - intros Hnd. rewrite <- (Hnew Hnd) at 1. apply expand_fold_prefix.
  - intros Hnone. now apply expand_fold_none.
  - intros Hnone Hnd. unfold expandDependencies.
    now rewrite expand_fold_none, Hnew.
Qed.

Lemma expandDependencies_order_witness :
  ["selected"; "$user"]
    `prefix_of` expandDependencies selecting_compiler ["selected"; "$user"]
  /\ expandDependencies selecting_compiler ["foo"; "bar"] = ["foo"; "bar"].
Proof.
  destruct (expandDependencies_order selecting_compiler ["selected"; "$user"])
    as (_ & Hfront & _).
  destruct (expandDependencies_order selecting_compiler ["foo"; "bar"])
    as (_ & _ & _ & Hsame).
  split.
  - apply Hfront. repeat constructor; intros Hin; not_listed Hin.
  - apply Hsame.
    + intros p Hp.
      repeat (apply elem_of_cons in Hp as [->|Hp]; [reflexivity|]).
      now apply elem_of_nil in Hp.
    + repeat constructor; intros Hin; not_listed Hin.
Defined.

(** ** From the target to the entries of the handler *)

Lemma getValueFromDom_computations `{Collaborators} (compiler : Compiler)
    (node : Element.t) (binding : Binding.t) :
  computations (getValueFromDom compiler node binding).2
  = computations compiler.
Proof.
  rewrite getValueFromDom_compiler.
  destruct (_ && _); [|reflexivity].
  now destruct (getBindingGroup_facts compiler
                  (Expression.node (Binding.value binding)))
    as (_ & _ & _ & _ & _ & _ & _ & _ & Hcomp).
Qed.

(** X14: for a member-expression target outside any contextual scope, the
    props of the synthesized handler name exactly the local names that are
    dependencies of the target, or indirect dependencies registered for one
    of them, and are not the key of a computation; its store entries name
    exactly the store-prefixed ones among the same names, without the
    sigil. *)
Theorem munge_member_entries `{Collaborators} (compiler : Compiler)
    (block : Block) (this : Binding.t) :
  let base := Expression.dependencies (Binding.value this) in
  let handler := Munged.handler (munge compiler block this).1.1 in
  let reached (d : string) :=
    d ∈ base
    \/ exists p indirect,
         p ∈ base
         /\ indirectDependencies compiler !! p = Some indirect
         /\ d ∈ indirect in
  Binding.isContextual this = false ->
  is_MemberExpression (Expression.node (Binding.value this)) = true ->
  (forall d, ctx_prop d ∈ Handler.props handler
             <-> reached d
                 /\ first_is_sigil d = false
                 /\ forall computation,
                      computation ∈ computations compiler ->
                      key computation <> d)
  /\ (forall s, store_prop s ∈ Handler.storeProps handler
                <-> reached (String "$" s)).
Proof.
  intros base handler reached Hctx Hmember. subst handler reached base.
  rewrite munge_handler.
  destruct (getEventHandler_entries_facts this
              (getValueFromDom compiler (Binding.parent this) this).2 block
              (getObject_name (Expression.node (Binding.value this)))
              (Expression.snippet (Binding.value this))
              (expandDependencies compiler
                 (Expression.dependencies (Binding.value this)))
              (getValueFromDom compiler (Binding.parent this) this).1
              (or_intror Hmember)) as [Hstore Hprops].
  split.
  - intros d. rewrite Hprops, expandDependencies_elem.
    assert (is_computation
              (getValueFromDom compiler (Binding.parent this) this).2 d
            = is_computation compiler d) as ->
      by (unfold is_computation; now rewrite getValueFromDom_computations).
    assert (is_computation compiler d = false
            <-> forall computation,
                  computation ∈ computations compiler ->
                  key computation <> d) as Hcomp.
    { destruct (is_computation compiler d) eqn:Hd.
      - apply is_computation_key in Hd as (c & Hc & Hkey).
        split; [discriminate | intros Hall; now destruct (Hall c Hc)].
      - split; [|reflexivity]. intros _ c Hc Hkey.
        assert (is_computation compiler d = true) as Hyes
          by (apply is_computation_key; eauto).
        congruence. }
    unfold indirect_of. rewrite <- Hcomp. tauto.
  - intros s. rewrite Hstore, expandDependencies_elem. reflexivity.
Qed.

Lemma munge_member_entries_witness :
  @ctx_prop "options"
  ∈ Handler.props
      (Munged.handler
         (@munge sample selecting_compiler empty_block
            (bind text_input "value" items_expression)).1.1)
  /\ @ctx_prop "total"
     ∉ Handler.props
         (Munged.handler
            (@munge sample selecting_compiler empty_block
               (bind text_input "value" items_expression)).1.1).
Proof.
  destruct (@munge_member_entries sample selecting_compiler empty_block
              (bind text_input "value" items_expression) eq_refl eq_refl)
    as [Hprops _].
  split.
  - apply Hprops. split; [|split; [reflexivity|]].
    + right. exists "selected", ["options"; "total"].
      split; [left|]. split; [reflexivity | left].
    + intros c Hc. apply list_elem_of_singleton in Hc. subst c. discriminate.
  - intros Hin. apply Hprops in Hin as (_ & _ & Hnot).
    apply (Hnot {| key := "total" |}); [left | reflexivity].
Defined.

(** ** The constructor *)

(** X15: the binding built from a target is contextual exactly when the
    scope declares the name of the target's object, and is marked as using
    the context exactly when it is contextual or its target is a member
    expression.  A bare target is addressed as the quoted name on ctx.  The
    handler follows the first flag, not the second: for a member expression
    whose object the scope does not declare, the binding says it uses the
    context and its handler says it does not. *)
Theorem Binding_new_context `{Collaborators} (parent : Element.t)
    (scope : Scope) (name : string) (target : Expression.t) :
  let this := Binding_new parent scope name target in
  let member := is_MemberExpression (Expression.node target) in
  let object := getObject_name (Expression.node target) in
  (Binding.isContextual this = true <-> object ∈ names scope)
  /\ Binding.usesContext this = member || Binding.isContextual this
  /\ (member = false ->
      Binding.obj this = "ctx"
      /\ Binding.prop this = "'" +:+ object +:+ "'")
  /\ (member = true -> object ∉ names scope ->
      Binding.usesContext this = true
      /\ forall compiler block snippet dependencies value,
           Handler.usesContext
             (getEventHandler this compiler block object snippet dependencies
                value) = false).
Proof.
  intros this member object. unfold this, member, object, Binding_new.
  destruct (Expression.node target) as [n s e|o p c s e|s e] eqn:Hnode; simpl.
  - repeat apply conj;
      [apply Set_has_elem | apply Set_has_elem | reflexivity
      | intros _; split; reflexivity | discriminate].
  - repeat apply conj;
      [apply Set_has_elem | apply Set_has_elem | reflexivity
      | discriminate |].
    intros _ Hout. split; [reflexivity|].
    intros compiler block snippet deps v.
    unfold getEventHandler. simpl. apply Set_has_not_elem in Hout.
    rewrite Hout, Hnode. reflexivity.
  - repeat apply conj;
      [apply Set_has_elem | apply Set_has_elem | reflexivity
      | intros _; split; reflexivity | discriminate].
Qed.

Lemma Binding_new_context_witness :
  Binding.usesContext (bind text_input "value" items_expression) = true
  /\ Handler.usesContext
       (@getEventHandler sample (bind text_input "value" items_expression)
          empty_compiler empty_block "selected" "ctx.selected.items"
          ["selected"] "input.value") = false
  /\ Binding.prop (bind text_input "value" foo_expression) = "'foo'".
Proof.
  destruct (@Binding_new_context sample text_input top_scope "value"
              items_expression) as (_ & _ & _ & Hmember).
  destruct (@Binding_new_context sample text_input top_scope "value"
              foo_expression) as (_ & _ & Hbare & _).
  destruct (Hmember eq_refl (not_elem_of_nil _)) as [Huses Hhandler].
  split; [exact Huses|]. split; [apply Hhandler|].
  now destruct (Hbare eq_refl).
Defined.

(** X16: [isComputed] answers true exactly when one of the member
    expressions met walking down the [object] fields from the node is
    computed; properties are not searched.  A member-expression target for
    which it answers false gets its property quoted by the constructor. *)
Theorem isComputed_object_chain `{Collaborators} (n : AstNode) :
  (isComputed n = true
   <-> exists m, m ∈ object_chain n /\ computed_flag m = true)
  /\ (forall parent scope name target object property computed s e,
        Expression.node target = n ->
        n = MemberExpression object property computed s e ->
        isComputed n = false ->
        Binding.prop (Binding_new parent scope name target)
        = "'" +:+ span (node_start property) (node_end property) +:+ "'").
Proof.
  split.
  - induction n as [name s e|object IHo property _ computed s e|s e]; simpl.
    + split; [discriminate | intros (m & Hm & _); now apply elem_of_nil in Hm].
    + destruct computed.
      * split; [|reflexivity]. intros _. eexists. split; [left | reflexivity].
      * rewrite IHo. split.
        -- intros (m & Hm & Hflag). exists m. split; [now right | assumption].
        -- intros (m & Hm & Hflag). apply elem_of_cons in Hm as [->|Hm];
             [discriminate | eauto].
    + split; [discriminate | intros (m & Hm & _); now apply elem_of_nil in Hm].
  - intros parent scope name target object property computed s e Hnode -> Hno.
    unfold Binding_new. rewrite Hnode. simpl in Hno.
    destruct computed; [discriminate | reflexivity].
Qed.

Lemma isComputed_object_chain_witness :
  Binding.prop (bind text_input "value" items_expression)
  = "'" +:+ span 9 14 +:+ "'".
Proof.
  destruct (@isComputed_object_chain sample items_node) as [_ Hquoted].
  apply (Hquoted text_input top_scope "value" items_expression
           (Identifier "selected" 0 8) (Identifier "items" 9 14) false
           0%nat 14%nat); reflexivity.
Defined.

(** ** Reader and writer side by side *)

(** X17: the reader and the writer classify the host alike, on static
    attribute values only.  On a select they are the multiple-selection
    pair exactly when the multiple attribute is bare; given as a text, or
    dynamically, it yields the single-selection pair.  For a directive named
    group on another host they are the checkbox pair exactly when the static
    type is the text checkbox; any other type, or an unknown one, yields the
    radio pair. *)
Theorem reader_writer_agree `{Collaborators} (compiler : Compiler)
    (node : Element.t) (binding : Binding.t) (snippet : string) :
  let var := Element.var node in
  let multiple := Element.getStaticAttributeValue node "multiple" in
  let type := Element.getStaticAttributeValue node "type" in
  let index :=
    (getBindingGroup compiler
       (Expression.node (Binding.value binding))).1 in
  let reader := (getValueFromDom compiler node binding).1 in
  let writer := getDomUpdater node binding snippet in
  Binding.name binding ∉ ["duration"; "buffered"; "seekable"; "played"] ->
  (Element.name node = "select" ->
   (multiple = STrue ->
    reader = "@selectMultipleValue(" +:+ var +:+ ")"
    /\ writer
       = Some ("@selectOptions(" +:+ var +:+ ", " +:+ snippet +:+ ")"))
   /\ (multiple <> STrue ->
       reader = "@selectValue(" +:+ var +:+ ")"
       /\ writer
          = Some ("@selectOption(" +:+ var +:+ ", " +:+ snippet +:+ ")")))
  /\ (Element.name node <> "select" -> Binding.name binding = "group" ->
      (type = SText "checkbox" ->
       reader
       = "@getBindingGroupValue(#component._bindingGroups["
           +:+ pretty index +:+ "])"
       /\ writer
          = Some (var +:+ ".checked = "
                    +:+ ("~" +:+ snippet +:+ ".indexOf(" +:+ var
                           +:+ ".__value)")
                    +:+ ";"))
      /\ (type <> SText "checkbox" ->
          reader = var +:+ ".__value"
          /\ writer
             = Some (var +:+ ".checked = "
                       +:+ (var +:+ ".__value === " +:+ snippet)
                       +:+ ";"))).
Proof.
  intros var multiple type index reader writer Hwrite.
  subst var multiple type index reader writer.
  unfold getValueFromDom, getDomUpdater, isReadOnlyMediaAttribute.
  fold readOnlyMediaAttributes in Hwrite.
  apply Set_has_not_elem in Hwrite. rewrite Hwrite. split.
  - intros Hselect. rewrite Hselect. simpl. split.
    + intros Hmany. rewrite Hmany. split; reflexivity.
    + intros Hsingle.
      destruct (Element.getStaticAttributeValue node "multiple");
        try contradiction; split; reflexivity.
  - intros Hselect Hgroup. apply String.eqb_neq in Hselect.
    rewrite Hselect, Hgroup. simpl.
    destruct (getBindingGroup compiler _) as [i compiler']. simpl. split.
    + intros Hbox. rewrite Hbox. split; reflexivity.
    + intros Hradio.
      assert (is_text (Element.getStaticAttributeValue node "type")
                "checkbox" = false) as Hno.
      { destruct (Element.getStaticAttributeValue node "type")
          as [| |data]; try reflexivity.
        simpl. apply String.eqb_neq. congruence. }
      rewrite Hno. split; reflexivity.
Qed.

Lemma reader_writer_agree_witness :
  (@getValueFromDom sample empty_compiler
     (element "select" "select"
        (fun attr => if String.eqb attr "multiple" then SText "multiple"
                     else SNull) false)
     (bind text_input "value" foo_expression)).1 = "@selectValue(select)"
  /\ getDomUpdater (element "input" "input" no_attributes false)
       (bind text_input "group" foo_expression) "ctx.foo"
     = Some "input.checked = input.__value === ctx.foo;".
Proof.
  destruct (@reader_writer_agree sample empty_compiler
              (element "select" "select"
                 (fun attr => if String.eqb attr "multiple"
                              then SText "multiple" else SNull) false)
              (bind text_input "value" foo_expression) "ctx.foo")
    as [Hselect _].
  { intros Hin. not_listed Hin. }
  destruct (@reader_writer_agree sample empty_compiler
              (element "input" "input" no_attributes false)
              (bind text_input "group" foo_expression) "ctx.foo")
    as [_ Hgroup].
  { intros Hin. not_listed Hin. }
  split.
  - destruct (Hselect eq_refl) as [_ Hsingle].
    now destruct Hsingle as [Hreader _]; [discriminate|].
  - destruct Hgroup as [_ Hradio]; [discriminate | reflexivity |].
    now destruct Hradio as [_ Hwriter]; [discriminate|].
Defined.
